(** * OCaml stubs of the tree-sitter binding (TreeSitter/tree_sitter_stubs.c)

    A shallow embedding of the C stubs that expose the tree-sitter C API to
    OCaml.  The stubs marshal parser, tree and language pointers through
    OCaml custom blocks, nodes through ordinary blocks of boxed integers,
    and write diagnostics to stderr.  The tree-sitter library itself is an
    external dependency: it enters the development as the interface
    [TreeSitter], and every statement about the stubs is proved for an
    arbitrary implementation of that interface.

    Conventions.  A 64-bit platform is assumed: [uint32_t] values fit in an
    OCaml immediate integer, pointers and [intnat] are 64 bits wide.  The
    finalisers the garbage collector runs on unreachable custom blocks are
    outside the model of the stubs: a stub only ever sees reachable values.
    [tree_finalize] is modelled on its own, after the stubs. *)

From Stdlib Require Import ZArith List String Ascii Lia Bool.
From Stdlib Require Import Init.Byte.
From Stdlib Require Strings.Byte.
From coqutil Require Import Word.Interface Word.Properties Word.Naive.
From stdpp Require Import base list.
Import ListNotations.
Local Open Scope Z_scope.

(** ** Machine integers *)

Abbreviation uint32_t := (@word.rep 32 Naive.word32).
Abbreviation pointer := (@word.rep 64 Naive.word64).

#[local] Existing Instance Naive.word32_ok.
#[local] Existing Instance Naive.word64_ok.

Definition NULL : pointer := word.of_Z 0.

Definition is_NULL (p : pointer) : bool := word.eqb p NULL.

(** ** The structures of tree_sitter/api.h that the stubs read field by field *)

Record TSNode := {
  context0 : uint32_t;
  context1 : uint32_t;
  context2 : uint32_t;
  context3 : uint32_t;
  id : pointer;
  tree : pointer
}.

Record TSPoint := { row : uint32_t; column : uint32_t }.

(** ** OCaml values, as the runtime macros see them *)

#[warnings="-register-all"]
Inductive value :=
| Long (n : Z)                        (* immediate integer: unit, bool, int, None *)
| Block (tag : Z) (fields : list value) (* caml_alloc (n, tag) *)
| BoxedInt32 (n : Z)                  (* caml_copy_int32, signed *)
| BoxedNativeint (n : Z)              (* caml_copy_nativeint, signed *)
| CamlString (s : list Byte.byte)     (* caml_alloc_string *)
| Custom (addr : nat).                (* caml_alloc_custom: address in the custom heap *)

Definition Val_long (n : Z) : value := Long n.
Definition Val_int (n : Z) : value := Val_long n.
Definition Val_unit : value := Val_int 0.
Definition Val_bool (b : bool) : value := Val_int (if b then 1 else 0).
Definition Val_none : value := Val_int 0.
Definition Val_some (v : value) : value := Block 0 [v].

Definition Is_block (v : value) : bool :=
  match v with Long _ => false | _ => true end.

Definition Field (v : value) (i : nat) : value :=
  match v with Block _ fs => nth i fs (Long 0) | _ => Long 0 end.

Definition Long_val (v : value) : Z :=
  match v with Long n => n | _ => 0 end.

(** [Int_val(x)] is [((int) Long_val(x))]: the OCaml integer cut down to a
    32-bit C [int]. *)
Definition Int_val (v : value) : Z :=
  word.signed (word.of_Z (Long_val v) : uint32_t).

Definition Int32_val (v : value) : Z :=
  match v with BoxedInt32 n => n | _ => 0 end.

Definition Nativeint_val (v : value) : Z :=
  match v with BoxedNativeint n => n | _ => 0 end.

Definition String_val (v : value) : list Byte.byte :=
  match v with CamlString s => s | _ => [] end.

Definition caml_string_length (v : value) : Z :=
  Z.of_nat (length (String_val v)).

Definition caml_copy_int32 (n : Z) : value := BoxedInt32 n.
Definition caml_copy_nativeint (n : Z) : value := BoxedNativeint n.
Definition caml_copy_string (s : string) : value :=
  CamlString (list_byte_of_string s).

(** ** Nodes and points across the boundary *)

(** [alloc_node]: a block of six boxed integers; the unsigned context words
    are stored as signed [int32], the two pointers as signed [nativeint]. *)
Definition alloc_node (node : TSNode) : value :=
  Block 0 [ caml_copy_int32 (word.signed (context0 node));
            caml_copy_int32 (word.signed (context1 node));
            caml_copy_int32 (word.signed (context2 node));
            caml_copy_int32 (word.signed (context3 node));
            caml_copy_nativeint (word.signed (id node));
            caml_copy_nativeint (word.signed (tree node)) ].

Definition node_val (v : value) : TSNode :=
  {| context0 := word.of_Z (Int32_val (Field v 0));
     context1 := word.of_Z (Int32_val (Field v 1));
     context2 := word.of_Z (Int32_val (Field v 2));
     context3 := word.of_Z (Int32_val (Field v 3));
     id := word.of_Z (Nativeint_val (Field v 4));
     tree := word.of_Z (Nativeint_val (Field v 5)) |}.

Definition alloc_point (point : TSPoint) : value :=
  Block 0 [ Val_int (word.unsigned (row point));
            Val_int (word.unsigned (column point)) ].

Definition point_val (v : value) : TSPoint :=
  {| row := word.of_Z (Int_val (Field v 0));
     column := word.of_Z (Int_val (Field v 1)) |}.

(** ** The tree-sitter library, as called by the stubs

    Library calls read and change the library's own memory (parsers, trees,
    language tables), abstracted as [lib].  A [const char *] result is an
    optional string, [None] standing for the null pointer. *)

Class TreeSitter := {
  lib : Type;
  TREE_SITTER_LANGUAGE_VERSION : uint32_t;
  tree_sitter_jasmin : lib -> pointer;
  ts_language_abi_version : pointer -> lib -> uint32_t;
  ts_parser_new : lib -> pointer * lib;
  ts_parser_delete : pointer -> lib -> lib;
  ts_parser_set_language : pointer -> pointer -> lib -> bool * lib;
  (* parser, old tree, source buffer, length *)
  ts_parser_parse_string :
    pointer -> pointer -> list Byte.byte -> uint32_t -> lib -> pointer * lib;
  ts_tree_root_node : pointer -> lib -> TSNode;
  ts_tree_delete : pointer -> lib -> lib;
  ts_tree_copy : pointer -> lib -> pointer * lib;
  ts_node_is_null : TSNode -> bool;
  ts_node_type : TSNode -> lib -> option string;
  ts_node_symbol : TSNode -> lib -> Z;
  ts_node_is_named : TSNode -> lib -> bool;
  ts_node_has_error : TSNode -> lib -> bool;
  ts_node_is_missing : TSNode -> lib -> bool;
  ts_node_start_point : TSNode -> lib -> TSPoint;
  ts_node_end_point : TSNode -> lib -> TSPoint;
  ts_node_start_byte : TSNode -> lib -> uint32_t;
  ts_node_end_byte : TSNode -> lib -> uint32_t;
  ts_node_child_count : TSNode -> lib -> uint32_t;
  ts_node_child : TSNode -> uint32_t -> lib -> TSNode;
  ts_node_named_child_count : TSNode -> lib -> uint32_t;
  ts_node_named_child : TSNode -> uint32_t -> lib -> TSNode;
  (* node, field name buffer, field name length *)
  ts_node_child_by_field_name :
    TSNode -> list Byte.byte -> uint32_t -> lib -> TSNode;
  ts_node_parent : TSNode -> lib -> TSNode;
  ts_node_next_sibling : TSNode -> lib -> TSNode;
  ts_node_prev_sibling : TSNode -> lib -> TSNode;
  ts_node_next_named_sibling : TSNode -> lib -> TSNode;
  ts_node_prev_named_sibling : TSNode -> lib -> TSNode;
  ts_node_descendant_for_point_range : TSNode -> TSPoint -> TSPoint -> lib -> TSNode;
  ts_node_named_descendant_for_point_range :
    TSNode -> TSPoint -> TSPoint -> lib -> TSNode
}.

(** ** The state a stub runs in *)

(** One [fprintf (stderr, fmt, args...)]: the format and its arguments. *)
Record diagnostic := { fmt : string; args : list Z }.

(** A custom block: the identifier of its [custom_operations] and the one
    pointer it stores. *)
Record custom_block := { identifier : string; data : pointer }.

Inductive outcome (A : Type) :=
| Returns (a : A)
| Raises (exn : string) (arg : string)    (* caml_failwith: Failure arg *)
| Undefined (what : string).              (* behaviour C leaves undefined *)
Arguments Returns {A} a.
Arguments Raises {A} exn arg.
Arguments Undefined {A} what.

(** ** The two libc functions the stubs use *)

Definition char_code (c : ascii) : Z := Z.of_N (N_of_ascii c).

(** A string that can sit in a NUL-terminated array: no character is NUL. *)
Fixpoint nul_free (s : string) : bool :=
  match s with
  | EmptyString => true
  | String c r => negb (char_code c =? 0) && nul_free r
  end.

(** [strcmp] on two NUL-terminated strings: the end of a Rocq string is its
    terminator, whose code is 0.  The result is the difference of the first
    two characters that differ; callers may only rely on its sign. *)
Fixpoint strcmp (s1 s2 : string) : Z :=
  match s1, s2 with
  | EmptyString, EmptyString => 0
  | EmptyString, String c2 _ => 0 - char_code c2
  | String c1 _, EmptyString => char_code c1 - 0
  | String c1 r1, String c2 r2 =>
      if char_code c1 =? char_code c2 then
        if char_code c1 =? 0 then 0 else strcmp r1 r2
      else char_code c1 - char_code c2
  end.

(** [memcpy (dst, src + off, n)] into a fresh destination: the bytes copied,
    or [None] when the source range leaves the buffer (the padding that
    follows an OCaml string's bytes is not modelled). *)
Definition memcpy_from (src : list Byte.byte) (off n : Z) : option (list Byte.byte) :=
  if off + n <=? Z.of_nat (length src)
  then Some (take (Z.to_nat n) (drop (Z.to_nat off) src))
  else None.

Section Stubs.
Context {TS : TreeSitter}.

Record world := {
  ts_mem : lib;                       (* memory owned by the library *)
  custom_heap : list custom_block;    (* OCaml custom blocks, by address *)
  stderr : list diagnostic            (* lines written so far, oldest first *)
}.

(** A stub runs in a world and either returns or raises an OCaml exception. *)
Definition stub (A : Type) : Type := world -> outcome A * world.

Definition ret {A} (a : A) : stub A := fun w => (Returns a, w).

Definition bind {A B} (m : stub A) (k : A -> stub B) : stub B :=
  fun w =>
    match m w with
    | (Returns a, w') => k a w'
    | (Raises e x, w') => (Raises e x, w')
    | (Undefined u, w') => (Undefined u, w')
    end.

Notation "x <- m ;; k" := (bind m (fun x => k))
  (at level 100, m at next level, right associativity).
Notation "m ;;; k" := (bind m (fun _ => k))
  (at level 100, right associativity).

Definition caml_failwith {A} (msg : string) : stub A :=
  fun w => (Raises "Failure" msg, w).

Definition undefined {A} (what : string) : stub A :=
  fun w => (Undefined what, w).

Definition fprintf_stderr (f : string) (a : list Z) : stub unit :=
  fun w => (Returns tt,
            {| ts_mem := ts_mem w; custom_heap := custom_heap w;
               stderr := stderr w ++ [ {| fmt := f; args := a |} ] |}).

(** stderr is modelled without a buffer, so flushing changes nothing. *)
Definition fflush_stderr : stub unit := ret tt.

(** A library call that may change the library's memory. *)
Definition call {A} (f : lib -> A * lib) : stub A :=
  fun w => let (a, m) := f (ts_mem w) in
           (Returns a,
            {| ts_mem := m; custom_heap := custom_heap w; stderr := stderr w |}).

Definition call_ (f : lib -> lib) : stub unit :=
  call (fun m => (tt, f m)).

(** A library call that only reads. *)
Definition query {A} (f : lib -> A) : stub A :=
  fun w => (Returns (f (ts_mem w)), w).

(** [caml_alloc_custom (ops, sizeof (void * ), 0, 1)]: a fresh block at the
    next address, its data word not yet written. *)
Definition caml_alloc_custom (ops : string) : stub value :=
  fun w => (Returns (Custom (length (custom_heap w))),
            {| ts_mem := ts_mem w;
               custom_heap := custom_heap w ++ [ {| identifier := ops; data := NULL |} ];
               stderr := stderr w |}).

Definition custom_addr (v : value) : nat :=
  match v with Custom a => a | _ => 0%nat end.

(** The pointer stored in the custom block [v]. *)
Definition custom_data (w : world) (v : value) : pointer :=
  match custom_heap w !! custom_addr v with
  | Some b => data b
  | None => NULL
  end.

(** Reading [*((T ** ) Data_custom_val (v))]. *)
Definition load_custom (v : value) : stub pointer :=
  fun w => (Returns (custom_data w v), w).

(** Writing [*((T ** ) Data_custom_val (v)) = p]. *)
Definition store_custom (v : value) (p : pointer) : stub unit :=
  fun w => (Returns tt,
            {| ts_mem := ts_mem w;
               custom_heap :=
                 match custom_heap w !! custom_addr v with
                 | Some b => <[custom_addr v := {| identifier := identifier b; data := p |}]>
                               (custom_heap w)
                 | None => custom_heap w
                 end;
               stderr := stderr w |}).

Definition Parser_val := load_custom.
Definition Tree_val := load_custom.
Definition Language_val := load_custom.

Definition alloc_parser (parser : pointer) : stub value :=
  v <- caml_alloc_custom "tree_sitter_parser" ;;
  store_custom v parser ;;;
  ret v.

Definition alloc_tree (t : pointer) : stub value :=
  v <- caml_alloc_custom "tree_sitter_tree" ;;
  store_custom v t ;;;
  ret v.

Definition alloc_language (lang : pointer) : stub value :=
  v <- caml_alloc_custom "tree_sitter_language" ;;
  store_custom v lang ;;;
  ret v.

Definition alloc_range (node : TSNode) : stub value :=
  sp <- query (ts_node_start_point node) ;;
  ep <- query (ts_node_end_point node) ;;
  sb <- query (ts_node_start_byte node) ;;
  eb <- query (ts_node_end_byte node) ;;
  ret (Block 0 [ alloc_point sp; alloc_point ep;
                 Val_int (word.unsigned sb); Val_int (word.unsigned eb) ]).

(** *** Parsers, languages and trees *)

Definition caml_ts_parser_new (unit : value) : stub value :=
  parser <- call ts_parser_new ;;
  alloc_parser parser.

Definition caml_ts_parser_delete (v_parser : value) : stub value :=
  parser <- Parser_val v_parser ;;
  call_ (ts_parser_delete parser) ;;;
  store_custom v_parser NULL ;;;
  ret Val_unit.

Definition caml_ts_parser_set_language (v_parser v_language : value) : stub value :=
  parser <- Parser_val v_parser ;;
  language <- Language_val v_language ;;
  fprintf_stderr "[C DEBUG] Setting language %p on parser %p\n"
    [word.unsigned language; word.unsigned parser] ;;;
  abi <- query (ts_language_abi_version language) ;;
  fprintf_stderr "[C DEBUG] Language ABI version: %u\n" [word.unsigned abi] ;;;
  fprintf_stderr "[C DEBUG] Expected ABI version: %u\n"
    [word.unsigned TREE_SITTER_LANGUAGE_VERSION] ;;;
  success <- call (ts_parser_set_language parser language) ;;
  fprintf_stderr "[C DEBUG] Set language result: %d\n" [Z.b2z success] ;;;
  (if negb success then
     fprintf_stderr "[C DEBUG] ERROR: Failed to set language! ABI version mismatch?\n" []
   else ret tt) ;;;
  ret Val_unit.

Definition caml_ts_language_jasmin (unit : value) : stub value :=
  fprintf_stderr "[C DEBUG] Getting Jasmin language\n" [] ;;;
  lang <- query tree_sitter_jasmin ;;
  fprintf_stderr "[C DEBUG] Jasmin language pointer: %p\n" [word.unsigned lang] ;;;
  alloc_language lang.

Definition caml_ts_parser_parse_string (v_parser v_string : value) : stub value :=
  parser <- Parser_val v_parser ;;
  let source := String_val v_string in
  let length : uint32_t := word.of_Z (caml_string_length v_string) in
  t <- call (ts_parser_parse_string parser NULL source length) ;;
  if is_NULL t then ret Val_none
  else
    v <- alloc_tree t ;;
    ret (Val_some v).

Definition caml_ts_parser_parse_string_with_tree
    (v_parser v_old_tree v_string : value) : stub value :=
  parser <- Parser_val v_parser ;;
  let source := String_val v_string in
  let length : uint32_t := word.of_Z (caml_string_length v_string) in
  fprintf_stderr "[C DEBUG] Parsing %d bytes\n" [word.signed length] ;;;
  old_tree <- (if Is_block v_old_tree then
                 o <- Tree_val (Field v_old_tree 0) ;;
                 fprintf_stderr "[C DEBUG] Using old tree\n" [] ;;;
                 ret o
               else ret NULL) ;;
  t <- call (ts_parser_parse_string parser old_tree source length) ;;
  if is_NULL t then
    fprintf_stderr "[C DEBUG] Parser returned NULL!\n" [] ;;;
    ret Val_none
  else
    fprintf_stderr "[C DEBUG] Parser succeeded, creating OCaml value\n" [] ;;;
    v <- alloc_tree t ;;
    ret (Val_some v).

Definition caml_ts_tree_root_node (v_tree : value) : stub value :=
  t <- Tree_val v_tree ;;
  if is_NULL t then
    fprintf_stderr "[C DEBUG] ERROR: tree_root_node called on NULL tree!\n" [] ;;;
    fflush_stderr ;;;
    caml_failwith "tree_root_node: NULL tree"
  else
    root <- query (ts_tree_root_node t) ;;
    ret (alloc_node root).

Definition caml_ts_tree_delete (v_tree : value) : stub value :=
  t <- Tree_val v_tree ;;
  (if negb (is_NULL t) then
     fprintf_stderr "[C DEBUG] Manually deleting tree %p\n" [word.unsigned t] ;;;
     fflush_stderr ;;;
     call_ (ts_tree_delete t) ;;;
     store_custom v_tree NULL
   else ret tt) ;;;
  ret Val_unit.

Definition caml_ts_tree_copy (v_tree : value) : stub value :=
  t <- Tree_val v_tree ;;
  copy <- call (ts_tree_copy t) ;;
  alloc_tree copy.

(** *** Node accessors *)

Definition caml_ts_node_type (v_node : value) : stub value :=
  let node := node_val v_node in
  if ts_node_is_null node then
    fprintf_stderr "[C DEBUG] node_type: node is null!\n" [] ;;;
    fflush_stderr ;;;
    ret (caml_copy_string "null")
  else
    type <- query (ts_node_type node) ;;
    match type with
    | None =>
        fprintf_stderr "[C DEBUG] WARNING: ts_node_type returned NULL!\n" [] ;;;
        fflush_stderr ;;;
        ret (caml_copy_string "unknown")
    | Some t => ret (caml_copy_string t)
    end.

Definition caml_ts_node_symbol (v_node : value) : stub value :=
  let node := node_val v_node in
  symbol <- query (ts_node_symbol node) ;;
  ret (Val_int symbol).

Definition caml_ts_node_is_named (v_node : value) : stub value :=
  let node := node_val v_node in
  b <- query (ts_node_is_named node) ;;
  ret (Val_bool b).

Definition caml_ts_node_has_error (v_node : value) : stub value :=
  fprintf_stderr "[C DEBUG] node_has_error called\n" [] ;;;
  fflush_stderr ;;;
  let node := node_val v_node in
  fprintf_stderr "[C DEBUG] got TSNode, checking if null\n" [] ;;;
  fflush_stderr ;;;
  if ts_node_is_null node then
    fprintf_stderr "[C DEBUG] node is null!\n" [] ;;;
    fflush_stderr ;;;
    ret (Val_bool false)
  else
    fprintf_stderr "[C DEBUG] node is valid, calling ts_node_has_error\n" [] ;;;
    fflush_stderr ;;;
    has_error <- query (ts_node_has_error node) ;;
    fprintf_stderr "[C DEBUG] ts_node_has_error returned: %d\n" [Z.b2z has_error] ;;;
    fflush_stderr ;;;
    ret (Val_bool has_error).

Definition caml_ts_node_is_missing (v_node : value) : stub value :=
  let node := node_val v_node in
  b <- query (ts_node_is_missing node) ;;
  ret (Val_bool b).

Definition caml_ts_node_range (v_node : value) : stub value :=
  let node := node_val v_node in
  alloc_range node.

Definition caml_ts_node_start_point (v_node : value) : stub value :=
  let node := node_val v_node in
  p <- query (ts_node_start_point node) ;;
  ret (alloc_point p).

Definition caml_ts_node_end_point (v_node : value) : stub value :=
  let node := node_val v_node in
  p <- query (ts_node_end_point node) ;;
  ret (alloc_point p).

Definition caml_ts_node_start_byte (v_node : value) : stub value :=
  let node := node_val v_node in
  b <- query (ts_node_start_byte node) ;;
  ret (Val_int (word.unsigned b)).

Definition caml_ts_node_end_byte (v_node : value) : stub value :=
  let node := node_val v_node in
  b <- query (ts_node_end_byte node) ;;
  ret (Val_int (word.unsigned b)).

Definition caml_ts_node_child_count (v_node : value) : stub value :=
  let node := node_val v_node in
  n <- query (ts_node_child_count node) ;;
  ret (Val_int (word.unsigned n)).

Definition caml_ts_node_named_child_count (v_node : value) : stub value :=
  let node := node_val v_node in
  n <- query (ts_node_named_child_count node) ;;
  ret (Val_int (word.unsigned n)).

(** *** Navigation *)

Definition caml_ts_node_child (v_node v_index : value) : stub value :=
  let node := node_val v_node in
  let index : uint32_t := word.of_Z (Int_val v_index) in
  child <- query (ts_node_child node index) ;;
  if ts_node_is_null child then ret Val_none
  else ret (Val_some (alloc_node child)).

Definition caml_ts_node_named_child (v_node v_index : value) : stub value :=
  let node := node_val v_node in
  let index : uint32_t := word.of_Z (Int_val v_index) in
  child <- query (ts_node_named_child node index) ;;
  if ts_node_is_null child then ret Val_none
  else ret (Val_some (alloc_node child)).

Definition caml_ts_node_child_by_field_name (v_node v_field_name : value) : stub value :=
  let node := node_val v_node in
  let field_name := String_val v_field_name in
  let field_name_length : uint32_t := word.of_Z (caml_string_length v_field_name) in
  child <- query (ts_node_child_by_field_name node field_name field_name_length) ;;
  if ts_node_is_null child then ret Val_none
  else ret (Val_some (alloc_node child)).

Definition caml_ts_node_parent (v_node : value) : stub value :=
  let node := node_val v_node in
  parent <- query (ts_node_parent node) ;;
  if ts_node_is_null parent then ret Val_none
  else ret (Val_some (alloc_node parent)).

Definition caml_ts_node_next_sibling (v_node : value) : stub value :=
  let node := node_val v_node in
  sibling <- query (ts_node_next_sibling node) ;;
  if ts_node_is_null sibling then ret Val_none
  else ret (Val_some (alloc_node sibling)).

Definition caml_ts_node_prev_sibling (v_node : value) : stub value :=
  let node := node_val v_node in
  sibling <- query (ts_node_prev_sibling node) ;;
  if ts_node_is_null sibling then ret Val_none
  else ret (Val_some (alloc_node sibling)).

Definition caml_ts_node_next_named_sibling (v_node : value) : stub value :=
  let node := node_val v_node in
  sibling <- query (ts_node_next_named_sibling node) ;;
  if ts_node_is_null sibling then ret Val_none
  else ret (Val_some (alloc_node sibling)).

Definition caml_ts_node_prev_named_sibling (v_node : value) : stub value :=
  let node := node_val v_node in
  sibling <- query (ts_node_prev_named_sibling node) ;;
  if ts_node_is_null sibling then ret Val_none
  else ret (Val_some (alloc_node sibling)).

Definition caml_ts_node_text (v_node v_source : value) : stub value :=
  let node := node_val v_node in
  let source := String_val v_source in
  start <- query (ts_node_start_byte node) ;;
  end_ <- query (ts_node_end_byte node) ;;
  let length : uint32_t := word.sub end_ start in
  match memcpy_from source (word.unsigned start) (word.unsigned length) with
  | Some copied => ret (CamlString copied)
  | None => undefined "memcpy: source range outside the buffer"
  end.

Definition caml_ts_node_descendant_for_point_range
    (v_node v_start v_end : value) : stub value :=
  let node := node_val v_node in
  let start := point_val v_start in
  let end_ := point_val v_end in
  descendant <- query (ts_node_descendant_for_point_range node start end_) ;;
  if ts_node_is_null descendant then ret Val_none
  else ret (Val_some (alloc_node descendant)).

Definition caml_ts_node_named_descendant_for_point_range
    (v_node v_start v_end : value) : stub value :=
  let node := node_val v_node in
  let start := point_val v_start in
  let end_ := point_val v_end in
  descendant <- query (ts_node_named_descendant_for_point_range node start end_) ;;
  if ts_node_is_null descendant then ret Val_none
  else ret (Val_some (alloc_node descendant)).

Definition caml_ts_node_is_error (v_node : value) : stub value :=
  let node := node_val v_node in
  type <- query (ts_node_type node) ;;
  match type with
  | Some t => ret (Val_bool (strcmp t "ERROR" =? 0))
  | None => undefined "strcmp: null pointer"
  end.

(** The world after the library's memory became [m] and [lines] were
    written. *)
Definition after_call (w : world) (m : lib) (lines : list diagnostic) : world :=
  {| ts_mem := m; custom_heap := custom_heap w; stderr := stderr w ++ lines |}.

(** The world with one more custom block, holding [p]. *)
Definition with_block (w : world) (ops : string) (p : pointer) : world :=
  {| ts_mem := ts_mem w;
     custom_heap := custom_heap w ++ [ {| identifier := ops; data := p |} ];
     stderr := stderr w |}.

(** What [caml_ts_parser_parse_string_with_tree] writes. *)
Definition parse_diagnostics (v_old_tree : value) (len : uint32_t) (t : pointer)
  : list diagnostic :=
  {| fmt := "[C DEBUG] Parsing %d bytes\n"; args := [word.signed len] |}
  :: (if Is_block v_old_tree
      then [ {| fmt := "[C DEBUG] Using old tree\n"; args := [] |} ] else [])
  ++ [ if is_NULL t
       then {| fmt := "[C DEBUG] Parser returned NULL!\n"; args := [] |}
       else {| fmt := "[C DEBUG] Parser succeeded, creating OCaml value\n"; args := [] |} ].

(** The old tree the library receives. *)
Definition old_tree_of (w : world) (v_old_tree : value) : pointer :=
  if Is_block v_old_tree then custom_data w (Field v_old_tree 0) else NULL.

(** A run that returns an optional tree handle for the library's answer [t]:
    [None] for the null pointer, otherwise [Some] of a custom block that
    stores [t]. *)
Definition tree_or_none (run : outcome value * world) (t : pointer) : Prop :=
  exists r w',
    run = (Returns r, w') /\
    (t = NULL -> r = Val_none) /\
    (t <> NULL -> exists h, r = Val_some h /\ custom_data w' h = t).


Definition optional_node (found : TSNode) : value :=
  if ts_node_is_null found then Val_none else Val_some (alloc_node found).

End Stubs.

Notation "x <- m ;; k" := (bind m (fun x => k))
  (at level 100, m at next level, right associativity).
Notation "m ;;; k" := (bind m (fun _ => k))
  (at level 100, right associativity).

Arguments world : clear implicits.
Arguments stub : clear implicits.

(** ** A small implementation of the library interface

    It stands in for the external library in the closed examples; no
    general statement depends on it.  Its one grammar has a single token, the
    letter [x]; any other byte becomes a one-byte ERROR token.  A tree is a
    root [source_file] with one child per byte.  A language is accepted when
    its ABI version lies between the oldest compatible version and
    [TREE_SITTER_LANGUAGE_VERSION], and a parser without a language returns
    no tree, as api.h documents for the real library. *)

Module Flat.

Record mem := {
  grammar_abi : Z;                              (* version compiled into the grammar *)
  parsers : list (pointer * pointer);           (* parser address, its language *)
  trees : list (pointer * list Byte.byte)       (* tree address, the bytes parsed *)
}.

Definition LANGUAGE_VERSION : Z := 14.
Definition MIN_COMPATIBLE_LANGUAGE_VERSION : Z := 13.

Definition jasmin : pointer := word.of_Z 4096.

Definition abi_version (language : pointer) (m : mem) : uint32_t :=
  if word.eqb language jasmin then word.of_Z (grammar_abi m) else word.of_Z 0.

Definition parser_new (m : mem) : pointer * mem :=
  let p : pointer := word.of_Z (65536 + Z.of_nat (length (parsers m))) in
  (p, {| grammar_abi := grammar_abi m;
         parsers := parsers m ++ [(p, NULL)];
         trees := trees m |}).

Definition assign (p language : pointer) (m : mem) : mem :=
  {| grammar_abi := grammar_abi m;
     parsers := map (fun e => if word.eqb (fst e) p then (p, language) else e) (parsers m);
     trees := trees m |}.

Definition parser_set_language (p language : pointer) (m : mem) : bool * mem :=
  if is_NULL language then (true, assign p NULL m)
  else
    let v := word.unsigned (abi_version language m) in
    if (MIN_COMPATIBLE_LANGUAGE_VERSION <=? v) && (v <=? LANGUAGE_VERSION)
    then (true, assign p language m)
    else (false, assign p NULL m).

Definition language_of (p : pointer) (m : mem) : pointer :=
  match find (fun e => word.eqb (fst e) p) (parsers m) with
  | Some e => snd e
  | None => NULL
  end.

Definition new_tree (bytes : list Byte.byte) (m : mem) : pointer * mem :=
  let t : pointer := word.of_Z ((Z.of_nat (length (trees m)) + 1) * 2 ^ 33) in
  (t, {| grammar_abi := grammar_abi m;
         parsers := parsers m;
         trees := trees m ++ [(t, bytes)] |}).

Definition parser_parse_string (p old_tree : pointer) (source : list Byte.byte)
    (len : uint32_t) (m : mem) : pointer * mem :=
  if is_NULL (language_of p m) then (NULL, m)
  else new_tree (take (Z.to_nat (word.unsigned len)) source) m.

Definition bytes_of (t : pointer) (m : mem) : list Byte.byte :=
  match find (fun e => word.eqb (fst e) t) (trees m) with
  | Some e => snd e
  | None => []
  end.

Definition tree_copy (t : pointer) (m : mem) : pointer * mem :=
  new_tree (bytes_of t m) m.

Definition null_node : TSNode :=
  {| context0 := word.of_Z 0; context1 := word.of_Z 0;
     context2 := word.of_Z 0; context3 := word.of_Z 0;
     id := NULL; tree := NULL |}.

Definition root_node (t : pointer) (m : mem) : TSNode :=
  {| context0 := word.of_Z 0; context1 := word.of_Z 0;
     context2 := word.of_Z 0; context3 := word.of_Z 0;
     id := t; tree := t |}.

(** The token at byte [i]: starts at byte [i], row 0, column [i]. *)
Definition token_node (t : pointer) (i : Z) : TSNode :=
  {| context0 := word.of_Z i; context1 := word.of_Z 0;
     context2 := word.of_Z i; context3 := word.of_Z 0;
     id := word.add t (word.of_Z (i + 1)); tree := t |}.

Definition node_is_null (n : TSNode) : bool := is_NULL (id n).

Definition is_root (n : TSNode) : bool := word.eqb (id n) (tree n).

Definition size (n : TSNode) (m : mem) : Z :=
  Z.of_nat (length (bytes_of (tree n) m)).

(** Position of a token among the children of the root. *)
Definition position (n : TSNode) : Z := word.unsigned (context0 n).

Definition token (t : pointer) (i : Z) (m : mem) : TSNode :=
  if (0 <=? i) && (i <? Z.of_nat (length (bytes_of t m)))
  then token_node t i else null_node.

Definition is_x (b : Byte.byte) : bool := Byte.eqb b "x"%byte.

Definition token_is_error (n : TSNode) (m : mem) : bool :=
  match bytes_of (tree n) m !! Z.to_nat (position n) with
  | Some b => negb (is_x b)
  | None => true
  end.

Definition node_type (n : TSNode) (m : mem) : option string :=
  if is_root n then Some "source_file"%string
  else if token_is_error n m then Some "ERROR"%string else Some "x"%string.

Definition node_symbol (n : TSNode) (m : mem) : Z :=
  if is_root n then 2 else if token_is_error n m then 65535 else 1.

Definition node_is_named (n : TSNode) (m : mem) : bool := true.

Definition node_has_error (n : TSNode) (m : mem) : bool :=
  if is_root n then negb (forallb is_x (bytes_of (tree n) m))
  else token_is_error n m.

Definition node_is_missing (n : TSNode) (m : mem) : bool := false.

Definition node_start_byte (n : TSNode) (m : mem) : uint32_t := context0 n.

Definition node_end_byte (n : TSNode) (m : mem) : uint32_t :=
  if is_root n then word.of_Z (size n m)
  else word.add (context0 n) (word.of_Z 1).

Definition node_start_point (n : TSNode) (m : mem) : TSPoint :=
  {| row := context1 n; column := context2 n |}.

Definition node_end_point (n : TSNode) (m : mem) : TSPoint :=
  {| row := word.of_Z 0; column := node_end_byte n m |}.

Definition node_child_count (n : TSNode) (m : mem) : uint32_t :=
  if is_root n then word.of_Z (size n m) else word.of_Z 0.

Definition node_child (n : TSNode) (i : uint32_t) (m : mem) : TSNode :=
  if is_root n then token (tree n) (word.unsigned i) m else null_node.

Definition node_child_by_field_name (n : TSNode) (name : list Byte.byte)
    (len : uint32_t) (m : mem) : TSNode := null_node.

Definition node_parent (n : TSNode) (m : mem) : TSNode :=
  if is_root n then null_node else root_node (tree n) m.

Definition node_next_sibling (n : TSNode) (m : mem) : TSNode :=
  if is_root n then null_node else token (tree n) (position n + 1) m.

Definition node_prev_sibling (n : TSNode) (m : mem) : TSNode :=
  if is_root n then null_node else token (tree n) (position n - 1) m.

(** The smallest node containing the range: a token when one token covers
    it, the node itself otherwise. *)
Definition node_descendant_for_point_range (n : TSNode) (s e : TSPoint) (m : mem) : TSNode :=
  let c := word.unsigned (column s) in
  if is_root n
     && (word.unsigned (row s) =? 0) && (word.unsigned (row e) =? 0)
     && (c <=? word.unsigned (column e)) && (word.unsigned (column e) <=? c + 1)
     && (c <? size n m)
  then token_node (tree n) c
  else n.

#[export] Instance engine : TreeSitter := {|
  lib := mem;
  TREE_SITTER_LANGUAGE_VERSION := word.of_Z LANGUAGE_VERSION;
  tree_sitter_jasmin := fun _ => jasmin;
  ts_language_abi_version := abi_version;
  ts_parser_new := parser_new;
  ts_parser_delete := fun p m => assign p NULL m;
  ts_parser_set_language := parser_set_language;
  ts_parser_parse_string := parser_parse_string;
  ts_tree_root_node := root_node;
  ts_tree_delete := fun t m => m;
  ts_tree_copy := tree_copy;
  ts_node_is_null := node_is_null;
  ts_node_type := node_type;
  ts_node_symbol := node_symbol;
  ts_node_is_named := node_is_named;
  ts_node_has_error := node_has_error;
  ts_node_is_missing := node_is_missing;
  ts_node_start_point := node_start_point;
  ts_node_end_point := node_end_point;
  ts_node_start_byte := node_start_byte;
  ts_node_end_byte := node_end_byte;
  ts_node_child_count := node_child_count;
  ts_node_child := node_child;
  ts_node_named_child_count := node_child_count;
  ts_node_named_child := node_child;
  ts_node_child_by_field_name := node_child_by_field_name;
  ts_node_parent := node_parent;
  ts_node_next_sibling := node_next_sibling;
  ts_node_prev_sibling := node_prev_sibling;
  ts_node_next_named_sibling := node_next_sibling;
  ts_node_prev_named_sibling := node_prev_sibling;
  ts_node_descendant_for_point_range := node_descendant_for_point_range;
  ts_node_named_descendant_for_point_range := node_descendant_for_point_range
|}.

(** The process at start-up: no parser, no tree, nothing written. *)
Definition boot (abi : Z) : world engine :=
  {| ts_mem := {| grammar_abi := abi; parsers := []; trees := [] |};
     custom_heap := [];
     stderr := [] |}.

(** A parser (block 0) configured with the grammar (block 1). *)
Definition setup : stub engine value :=
  p <- caml_ts_parser_new Val_unit ;;
  l <- caml_ts_language_jasmin Val_unit ;;
  caml_ts_parser_set_language p l.

(** The world after [setup], when grammar and library agree on the ABI. *)
Definition ready : world engine := snd (setup (boot LANGUAGE_VERSION)).

(** The world after the configured parser parsed [src] into the tree held
    by block 2, at address [first_tree]. *)
Definition parsed (src : list Byte.byte) : world engine :=
  snd (caml_ts_parser_parse_string (Custom 0) (CamlString src) ready).

Definition first_tree : pointer := word.of_Z (2 ^ 33).

Definition xyx : list Byte.byte := ["x"; "y"; "x"]%byte.

End Flat.

(** ** Navigation, as one family

    The ten navigation stubs, named by the request they serve.  [navigate]
    dispatches to the stub; [requested] is the node the library is asked
    for, with the arguments as the library receives them: an index or a
    length modulo 2^32, a point with both coordinates modulo 2^32. *)

Inductive navigation :=
| Parent
| Child (v_index : value)
| Named_child (v_index : value)
| Next_sibling
| Prev_sibling
| Next_named_sibling
| Prev_named_sibling
| Child_by_field_name (v_field_name : value)
| Descendant_for_point_range (v_start v_end : value)
| Named_descendant_for_point_range (v_start v_end : value).

Definition uint32_of (z : Z) : uint32_t := word.of_Z (z mod 2 ^ 32).

Definition point_of (v : value) : TSPoint :=
  {| row := uint32_of (Long_val (Field v 0));
     column := uint32_of (Long_val (Field v 1)) |}.

Section Navigation.
Context {TS : TreeSitter}.

Definition navigate (op : navigation) (v_node : value) : stub TS value :=
  match op with
  | Parent => caml_ts_node_parent v_node
  | Child i => caml_ts_node_child v_node i
  | Named_child i => caml_ts_node_named_child v_node i
  | Next_sibling => caml_ts_node_next_sibling v_node
  | Prev_sibling => caml_ts_node_prev_sibling v_node
  | Next_named_sibling => caml_ts_node_next_named_sibling v_node
  | Prev_named_sibling => caml_ts_node_prev_named_sibling v_node
  | Child_by_field_name f => caml_ts_node_child_by_field_name v_node f
  | Descendant_for_point_range s e =>
      caml_ts_node_descendant_for_point_range v_node s e
  | Named_descendant_for_point_range s e =>
      caml_ts_node_named_descendant_for_point_range v_node s e
  end.

Definition requested (op : navigation) (node : TSNode) (m : lib) : TSNode :=
  match op with
  | Parent => ts_node_parent node m
  | Child i => ts_node_child node (uint32_of (Long_val i)) m
  | Named_child i => ts_node_named_child node (uint32_of (Long_val i)) m
  | Next_sibling => ts_node_next_sibling node m
  | Prev_sibling => ts_node_prev_sibling node m
  | Next_named_sibling => ts_node_next_named_sibling node m
  | Prev_named_sibling => ts_node_prev_named_sibling node m
  | Child_by_field_name f =>
      ts_node_child_by_field_name node (String_val f)
        (uint32_of (Z.of_nat (length (String_val f)))) m
  | Descendant_for_point_range s e =>
      ts_node_descendant_for_point_range node (point_of s) (point_of e) m
  | Named_descendant_for_point_range s e =>
      ts_node_named_descendant_for_point_range node (point_of s) (point_of e) m
  end.

End Navigation.


(** ** The tree finaliser

    [tree_finalize] reads the block's data word through [Data_custom_val],
    whose address is never null for a block; the test that remains is the
    one on the stored pointer.  The pointer is cleared before the tree is
    deleted. *)

Section Finaliser.
Context {TS : TreeSitter}.

Definition tree_finalize (v : value) : stub TS unit :=
  t <- Tree_val v ;;
  if negb (is_NULL t) then
    store_custom v NULL ;;;
    call_ (ts_tree_delete t)
  else ret tt.

End Finaliser.

(** ** Every stub, as one family

    The externals of the binding, one constructor per stub, and the
    dispatcher that runs the stub a request names. *)

Inductive request :=
| Parser_new
| Parser_delete (v_parser : value)
| Parser_set_language (v_parser v_language : value)
| Language_jasmin
| Parser_parse_string (v_parser v_string : value)
| Parser_parse_string_with_tree (v_parser v_old_tree v_string : value)
| Tree_root_node (v_tree : value)
| Tree_delete (v_tree : value)
| Tree_copy (v_tree : value)
| Node_type (v_node : value)
| Node_symbol (v_node : value)
| Node_is_named (v_node : value)
| Node_has_error (v_node : value)
| Node_is_missing (v_node : value)
| Node_range (v_node : value)
| Node_start_point (v_node : value)
| Node_end_point (v_node : value)
| Node_start_byte (v_node : value)
| Node_end_byte (v_node : value)
| Node_child_count (v_node : value)
| Node_named_child_count (v_node : value)
| Node_navigate (op : navigation) (v_node : value)
| Node_text (v_node v_source : value)
| Node_is_error (v_node : value).

(** The address of the custom block an outcome hands to OCaml, directly
    or inside an option. *)
Definition returned_handle (o : outcome value) : option nat :=
  match o with
  | Returns (Custom n) => Some n
  | Returns (Block _ [Custom n]) => Some n
  | _ => None
  end.

(** The custom block a request releases, if it is one of the two deletes. *)
Definition released (r : request) : option nat :=
  match r with
  | Parser_delete v | Tree_delete v => Some (custom_addr v)
  | _ => None
  end.

Section Requests.
Context {TS : TreeSitter}.

Definition perform (r : request) : stub TS value :=
  match r with
  | Parser_new => caml_ts_parser_new Val_unit
  | Parser_delete p => caml_ts_parser_delete p
  | Parser_set_language p l => caml_ts_parser_set_language p l
  | Language_jasmin => caml_ts_language_jasmin Val_unit
  | Parser_parse_string p s => caml_ts_parser_parse_string p s
  | Parser_parse_string_with_tree p o s => caml_ts_parser_parse_string_with_tree p o s
  | Tree_root_node t => caml_ts_tree_root_node t
  | Tree_delete t => caml_ts_tree_delete t
  | Tree_copy t => caml_ts_tree_copy t
  | Node_type n => caml_ts_node_type n
  | Node_symbol n => caml_ts_node_symbol n
  | Node_is_named n => caml_ts_node_is_named n
  | Node_has_error n => caml_ts_node_has_error n
  | Node_is_missing n => caml_ts_node_is_missing n
  | Node_range n => caml_ts_node_range n
  | Node_start_point n => caml_ts_node_start_point n
  | Node_end_point n => caml_ts_node_end_point n
  | Node_start_byte n => caml_ts_node_start_byte n
  | Node_end_byte n => caml_ts_node_end_byte n
  | Node_child_count n => caml_ts_node_child_count n
  | Node_named_child_count n => caml_ts_node_named_child_count n
  | Node_navigate op n => navigate op n
  | Node_text n s => caml_ts_node_text n s
  | Node_is_error n => caml_ts_node_is_error n
  end.

(** [w'] keeps what [w] had: every custom block is still at its address
    with its identifier, its pointer either as it was or cleared, and
    stderr has only been appended to. *)
Definition preserves (w w' : world TS) : Prop :=
  (forall a b, custom_heap w !! a = Some b ->
     exists b', custom_heap w' !! a = Some b' /\
                identifier b' = identifier b /\
                (data b' = data b \/ data b' = NULL)) /\
  (exists lines, stderr w' = stderr w ++ lines).

(** Properties of a stub that compose along [bind]. *)
Definition monotone {A} (m : stub TS A) : Prop :=
  forall w, preserves w (snd (m w)).

Definition keeps {A} (a : nat) (m : stub TS A) : Prop :=
  forall w b, custom_heap w !! a = Some b -> custom_heap (snd (m w)) !! a = Some b.

Definition read_only {A} (m : stub TS A) : Prop :=
  forall w, ts_mem (snd (m w)) = ts_mem w /\ custom_heap (snd (m w)) = custom_heap w.

End Requests.

(** ** The test program (test/test_tree_sitter_debug.c)

    [main] against the same library interface.  A line of output records
    its stream, its format and its arguments; the exit status is the value
    [main] returns. *)

Inductive printf_arg :=
| Arg_int (z : Z)
| Arg_ptr (p : pointer)
| Arg_str (s : option string).

Record output := { stream : string; format : string; arguments : list printf_arg }.

Definition printf (f : string) (a : list printf_arg) : output :=
  {| stream := "stdout"; format := f; arguments := a |}.

Definition eprintf (f : string) (a : list printf_arg) : output :=
  {| stream := "stderr"; format := f; arguments := a |}.

Definition test_source : string :=
  "fn test() -> reg u64 { reg u64 x; return x; }".

Section TestProgram.
Context {TS : TreeSitter}.

Definition main (m0 : lib) : Z * list output * lib :=
  let out0 := [ printf "Creating parser...\n" [] ] in
  let (parser, m1) := ts_parser_new m0 in
  if is_NULL parser then
    (1, out0 ++ [ eprintf "Failed to create parser\n" [] ], m1)
  else
  let out1 := out0 ++ [ printf "Parser created: %p\n" [Arg_ptr parser];
                        printf "\nGetting Jasmin language...\n" [] ] in
  let lang := tree_sitter_jasmin m1 in
  if is_NULL lang then
    (1, out1 ++ [ eprintf "Failed to get language\n" [] ], m1)
  else
  let out2 := out1 ++ [ printf "Language pointer: %p\n" [Arg_ptr lang];
                        printf "\nChecking ABI versions:\n" [] ] in
  let lang_version := ts_language_abi_version lang m1 in
  let out3 := out2 ++
    [ printf "Language ABI version: %u\n" [Arg_int (word.unsigned lang_version)];
      printf "Expected ABI version: %u (TREE_SITTER_LANGUAGE_VERSION)\n"
        [Arg_int (word.unsigned TREE_SITTER_LANGUAGE_VERSION)] ] in
  if negb (word.eqb lang_version TREE_SITTER_LANGUAGE_VERSION) then
    (1, out3 ++
        [ eprintf "ERROR: ABI version mismatch!\n" [];
          eprintf "  Language reports: %u\n" [Arg_int (word.unsigned lang_version)];
          eprintf "  Library expects: %u\n"
            [Arg_int (word.unsigned TREE_SITTER_LANGUAGE_VERSION)] ], m1)
  else
  let out4 := out3 ++ [ printf "\nSetting language on parser...\n" [] ] in
  let (success, m2) := ts_parser_set_language parser lang m1 in
  let out5 := out4 ++ [ printf "Set language result: %d\n" [Arg_int (Z.b2z success)] ] in
  if negb success then
    (1, out5 ++ [ eprintf "ERROR: Failed to set language!\n" [] ], m2)
  else
  let out6 := out5 ++ [ printf "\nParsing test code...\n" [] ] in
  let source := test_source in
  let (t, m3) := ts_parser_parse_string parser NULL (list_byte_of_string source)
                   (word.of_Z (Z.of_nat (String.length source))) m2 in
  if is_NULL t then
    (1, out6 ++ [ eprintf "ERROR: Parser returned NULL!\n" [] ], m3)
  else
  let out7 := out6 ++ [ printf "Parse succeeded! Tree: %p\n" [Arg_ptr t] ] in
  let root := ts_tree_root_node t m3 in
  let type := ts_node_type root m3 in
  let out8 := out7 ++
    [ printf "Root node type: %s\n" [Arg_str type];
      printf "Root has error: %d\n" [Arg_int (Z.b2z (ts_node_has_error root m3))] ] in
  let m4 := ts_tree_delete t m3 in
  let m5 := ts_parser_delete parser m4 in
  (0, out8 ++ [ printf "\n✅ All tests passed!\n" [] ], m5).

(** The checks [main] makes before it reports success. *)
Definition main_checks_pass (m0 : lib) : Prop :=
  let (parser, m1) := ts_parser_new m0 in
  let lang := tree_sitter_jasmin m1 in
  parser <> NULL /\
  lang <> NULL /\
  ts_language_abi_version lang m1 = TREE_SITTER_LANGUAGE_VERSION /\
  let (success, m2) := ts_parser_set_language parser lang m1 in
  success = true /\
  fst (ts_parser_parse_string parser NULL (list_byte_of_string test_source)
         (word.of_Z 45) m2) <> NULL.

End TestProgram.
(** ** Marshalling lemmas *)

Lemma node_val_alloc_node (node : TSNode) : node_val (alloc_node node) = node.
Proof.
  destruct node as [c0 c1 c2 c3 i t].
  cbv [node_val alloc_node Field Int32_val Nativeint_val caml_copy_int32
       caml_copy_nativeint nth context0 context1 context2 context3 id tree].
  rewrite !word.of_Z_signed. reflexivity.
Qed.

Lemma of_Z_mod32 (z : Z) : (word.of_Z (z mod 2 ^ 32) : uint32_t) = word.of_Z z.
Proof.
  apply word.unsigned_inj. rewrite !word.unsigned_of_Z. unfold word.wrap.
  apply Z.mod_mod. lia.
Qed.

(** Narrowing an OCaml integer to [int] and then to [uint32_t] keeps its low
    32 bits. *)
Lemma uint32_of_Int_val (v : value) :
  (word.of_Z (Int_val v) : uint32_t) = uint32_of (Long_val v).
Proof.
  unfold Int_val, uint32_of. rewrite word.of_Z_signed. symmetry. apply of_Z_mod32.
Qed.

Lemma point_val_point_of (v : value) : point_val v = point_of v.
Proof.
  unfold point_val, point_of. rewrite !uint32_of_Int_val. reflexivity.
Qed.

Lemma is_NULL_spec (p : pointer) : is_NULL p = true <-> p = NULL.
Proof.
  unfold is_NULL. destruct (word.eqb_spec p NULL); split; congruence.
Qed.

Lemma is_NULL_false (p : pointer) : is_NULL p = false <-> p <> NULL.
Proof.
  rewrite <- is_NULL_spec. destruct (is_NULL p); split; congruence.
Qed.

Lemma Val_some_not_none (v : value) : Val_some v <> Val_none.
Proof. discriminate. Qed.

Lemma run_eq {A W : Type} (run : A * W) (a : A) : fst run = a -> run = (a, snd run).
Proof. destruct run. cbn. congruence. Qed.

Ltac run_stub :=
  cbv [bind ret query call call_ fprintf_stderr fflush_stderr caml_failwith
       undefined Parser_val Tree_val Language_val load_custom];
  cbn [fst snd ts_mem custom_heap stderr].

Section NavigationFacts.
Context {TS : TreeSitter}.

Lemma navigate_eq (op : navigation) (v_node : value) (w : world TS) :
  navigate op v_node w =
  (Returns (optional_node (requested op (node_val v_node) (ts_mem w))), w).
Proof.
  destruct op; cbn [navigate requested];
    cbv [caml_ts_node_parent caml_ts_node_child caml_ts_node_named_child
         caml_ts_node_next_sibling caml_ts_node_prev_sibling
         caml_ts_node_next_named_sibling caml_ts_node_prev_named_sibling
         caml_ts_node_child_by_field_name
         caml_ts_node_descendant_for_point_range
         caml_ts_node_named_descendant_for_point_range optional_node
         caml_string_length];
    run_stub;
    rewrite ?uint32_of_Int_val, ?point_val_point_of;
    unfold uint32_of; rewrite ?of_Z_mod32;
    match goal with
    | |- context [ts_node_is_null ?n] => destruct (ts_node_is_null n)
    end; reflexivity.
Qed.

(** C5, as the stubs have it.  Every navigation stub returns without raising
    and leaves the world as it was; the result is [None] exactly when the
    node the library answers with is the null node, and otherwise [Some] of
    a value that decodes to that very node, which is not null.  An index
    reaches the library modulo 2^32: [child (i + k * 2^32)] is [child (i)],
    and so for [named_child]. *)
Theorem navigation_returns_explicit_option
    (op : navigation) (v_node : value) (w : world TS) :
  let found := requested op (node_val v_node) (ts_mem w) in
  (exists r,
    navigate op v_node w = (Returns r, w) /\
    (r = Val_none <-> ts_node_is_null found = true) /\
    (ts_node_is_null found = false ->
       exists v, r = Val_some v /\ node_val v = found) /\
    (forall v, r = Val_some v ->
       node_val v = found /\ ts_node_is_null (node_val v) = false)) /\
  (forall i k : Z,
     caml_ts_node_child v_node (Val_int (i + k * 2 ^ 32)) w =
       caml_ts_node_child v_node (Val_int i) w /\
     caml_ts_node_named_child v_node (Val_int (i + k * 2 ^ 32)) w =
       caml_ts_node_named_child v_node (Val_int i) w).
Proof.
  intros found. split.
  - exists (optional_node found). split.
    + apply navigate_eq.
    + unfold optional_node. destruct (ts_node_is_null found) eqn:Hnull.
      * split; [tauto|]. split; [discriminate|].
        intros v Hv. discriminate Hv.
      * split.
        -- split; [intros H; discriminate H | discriminate].
        -- split.
           ++ intros _. eexists. split; [reflexivity|]. apply node_val_alloc_node.
           ++ intros v Hv. injection Hv as <-.
              rewrite node_val_alloc_node. auto.
  - intros i k.
    pose proof (navigate_eq (Child (Val_int (i + k * 2 ^ 32))) v_node w) as Hc.
    pose proof (navigate_eq (Named_child (Val_int (i + k * 2 ^ 32))) v_node w) as Hn.
    cbn [navigate requested Long_val Val_int Val_long] in Hc, Hn.
    unfold uint32_of in Hc, Hn. rewrite Z.mod_add in Hc, Hn by lia.
    rewrite Hc, Hn.
    split; symmetry.
    + apply (navigate_eq (Child (Val_int i))).
    + apply (navigate_eq (Named_child (Val_int i))).
Qed.

End NavigationFacts.

(** ** Custom blocks *)

Section CustomBlocks.
Context {TS : TreeSitter}.

Lemma alloc_store (ops : string) (p : pointer) (w : world TS) :
  (v <- caml_alloc_custom ops ;; store_custom v p ;;; ret v) w =
  (Returns (Custom (length (custom_heap w))), with_block w ops p).
Proof.
  cbv [bind ret caml_alloc_custom store_custom with_block].
  cbn [custom_heap ts_mem stderr custom_addr].
  rewrite lookup_app_r by lia. rewrite Nat.sub_diag. cbn [lookup list_lookup].
  rewrite insert_app_r_alt by lia. rewrite Nat.sub_diag. reflexivity.
Qed.

Lemma alloc_tree_eq (t : pointer) (w : world TS) :
  alloc_tree t w =
  (Returns (Custom (length (custom_heap w))), with_block w "tree_sitter_tree" t).
Proof. apply alloc_store. Qed.

Lemma custom_data_with_block_old (w : world TS) ops p v :
  (custom_addr v < length (custom_heap w))%nat ->
  custom_data (with_block w ops p) v = custom_data w v.
Proof.
  intros Hlt. unfold custom_data, with_block. cbn [custom_heap].
  rewrite lookup_app_l by exact Hlt. reflexivity.
Qed.

Lemma custom_data_with_block_new (w : world TS) ops p :
  custom_data (with_block w ops p) (Custom (length (custom_heap w))) = p.
Proof.
  unfold custom_data, with_block. cbn [custom_heap custom_addr].
  rewrite lookup_app_r by lia. rewrite Nat.sub_diag. reflexivity.
Qed.

End CustomBlocks.

(** ** The two parse stubs, in closed form *)

Section Parse.
Context {TS : TreeSitter}.

Lemma after_call_nil (w : world TS) : after_call w (ts_mem w) [] = w.
Proof. destruct w. unfold after_call. cbn. rewrite app_nil_r. reflexivity. Qed.

Lemma parse_string_eq (v_parser v_string : value) (w : world TS) :
  caml_ts_parser_parse_string v_parser v_string w =
  let (t, m) := ts_parser_parse_string (custom_data w v_parser) NULL
                  (String_val v_string) (uint32_of (caml_string_length v_string))
                  (ts_mem w) in
  if is_NULL t then (Returns Val_none, after_call w m [])
  else (Returns (Val_some (Custom (length (custom_heap w)))),
        with_block (after_call w m []) "tree_sitter_tree" t).
Proof.
  unfold caml_ts_parser_parse_string, uint32_of. rewrite of_Z_mod32. run_stub.
  destruct (ts_parser_parse_string _ _ _ _ _) as [t m].
  unfold after_call. rewrite app_nil_r.
  destruct (is_NULL t); [reflexivity|].
  rewrite alloc_tree_eq. reflexivity.
Qed.

Lemma parse_string_with_tree_eq (v_parser v_old_tree v_string : value) (w : world TS) :
  caml_ts_parser_parse_string_with_tree v_parser v_old_tree v_string w =
  let len := uint32_of (caml_string_length v_string) in
  let (t, m) := ts_parser_parse_string (custom_data w v_parser)
                  (old_tree_of w v_old_tree) (String_val v_string) len (ts_mem w) in
  let w1 := after_call w m (parse_diagnostics v_old_tree len t) in
  if is_NULL t then (Returns Val_none, w1)
  else (Returns (Val_some (Custom (length (custom_heap w)))),
        with_block w1 "tree_sitter_tree" t).
Proof.
  unfold caml_ts_parser_parse_string_with_tree, uint32_of, old_tree_of,
    parse_diagnostics.
  rewrite of_Z_mod32. run_stub. unfold custom_data.
  destruct (Is_block v_old_tree); run_stub; cbn [custom_heap];
    destruct (ts_parser_parse_string _ _ _ _ _) as [t m];
    unfold after_call; cbn [ts_mem custom_heap stderr];
    destruct (is_NULL t); cbn [ts_mem custom_heap stderr app];
    rewrite <- ?app_assoc; cbn [app];
    try reflexivity;
    rewrite alloc_tree_eq; unfold with_block; cbn [ts_mem custom_heap stderr];
    rewrite <- ?app_assoc; reflexivity.
Qed.

End Parse.

Section ParseFacts.
Context {TS : TreeSitter}.

Lemma tree_or_none_intro (t : pointer) (w1 : world TS) (n : nat) :
  n = length (custom_heap w1) ->
  tree_or_none
    (if is_NULL t then (Returns Val_none, w1)
     else (Returns (Val_some (Custom n)), with_block w1 "tree_sitter_tree" t)) t.
Proof.
  intros ->. destruct (is_NULL t) eqn:Hnull.
  - apply is_NULL_spec in Hnull. do 2 eexists. split; [reflexivity|].
    split; [reflexivity | congruence].
  - assert (t <> NULL) as Hne.
    { intros H. apply is_NULL_spec in H. congruence. }
    do 2 eexists. split; [reflexivity|]. split; [congruence|].
    intros _. eexists. split; [reflexivity|].
    apply custom_data_with_block_new.
Qed.

(** C4, as the stubs have it.  A parse makes one library call, the parse
    itself, with the stored parser, the previous tree's stored pointer (or
    the null pointer), the string's bytes and their length modulo 2^32; the
    library's memory afterwards is what that call left.  The custom heap
    gains the new tree's block when the library answers with a tree, and is
    otherwise unchanged: the previous tree's handle and every other block
    keep their places and pointers.  [caml_ts_parser_parse_string] writes
    nothing; the variant taking a previous tree writes its "Parsing %d
    bytes" line and at least one more on every call. *)
Theorem parse_frame
    (v_parser v_old_tree v_string : value) (w : world TS) :
  let len := uint32_of (caml_string_length v_string) in
  let plain :=
    ts_parser_parse_string (custom_data w v_parser) NULL
      (String_val v_string) len (ts_mem w) in
  let incremental :=
    ts_parser_parse_string (custom_data w v_parser) (old_tree_of w v_old_tree)
      (String_val v_string) len (ts_mem w) in
  let new_tree (t : pointer) :=
    if is_NULL t then [] else [ {| identifier := "tree_sitter_tree"; data := t |} ] in
  let w1 := snd (caml_ts_parser_parse_string v_parser v_string w) in
  let w2 := snd (caml_ts_parser_parse_string_with_tree v_parser v_old_tree v_string w) in
  (ts_mem w1 = snd plain /\
   custom_heap w1 = custom_heap w ++ new_tree (fst plain) /\
   stderr w1 = stderr w) /\
  (ts_mem w2 = snd incremental /\
   custom_heap w2 = custom_heap w ++ new_tree (fst incremental) /\
   stderr w2 = stderr w ++ parse_diagnostics v_old_tree len (fst incremental) /\
   exists more,
     parse_diagnostics v_old_tree len (fst incremental) =
       {| fmt := "[C DEBUG] Parsing %d bytes\n"; args := [word.signed len] |} :: more
     /\ more <> []).
Proof.
  cbv zeta. rewrite parse_string_eq, parse_string_with_tree_eq. cbv zeta.
  destruct (ts_parser_parse_string (custom_data w v_parser) NULL _ _ _) as [t m].
  destruct (ts_parser_parse_string (custom_data w v_parser) (old_tree_of _ _) _ _ _)
    as [t' m'].
  cbn [fst snd]. split.
  - destruct (is_NULL t);
      cbn [snd with_block after_call ts_mem custom_heap stderr];
      rewrite ?app_nil_r; repeat split; reflexivity.
  - unfold parse_diagnostics.
    destruct (is_NULL t'), (Is_block v_old_tree);
      cbn [snd with_block after_call ts_mem custom_heap stderr app];
      rewrite ?app_nil_r;
      (split; [reflexivity|]); (split; [reflexivity|]); (split; [reflexivity|]);
      (eexists; split; [reflexivity | discriminate]).
Qed.

End ParseFacts.


(** C4 fails as stated: a parse with no previous tree, on a configured
    parser, writes two lines to stderr. *)
Lemma parse_with_tree_writes_diagnostics :
  stderr (snd (caml_ts_parser_parse_string_with_tree (Custom 0) Val_none
                 (CamlString ["x"%byte]) Flat.ready)) =
  stderr Flat.ready
  ++ [ {| fmt := "[C DEBUG] Parsing %d bytes\n"; args := [1] |};
       {| fmt := "[C DEBUG] Parser succeeded, creating OCaml value\n"; args := [] |} ].
Proof. vm_compute. reflexivity. Qed.

(** ** Released trees *)

Section Release.
Context {TS : TreeSitter}.

Lemma custom_data_store (v : value) (p : pointer) (w w' : world TS) :
  custom_heap w' = custom_heap w ->
  custom_data w v <> NULL ->
  custom_data (snd (store_custom v p w')) v = p.
Proof.
  intros Hheap Hlive. unfold store_custom, custom_data in *. cbn [snd custom_heap].
  rewrite Hheap.
  destruct (custom_heap w !! custom_addr v) as [b|] eqn:Hb; [|congruence].
  rewrite list_lookup_insert_eq by (eapply lookup_lt_Some; exact Hb).
  reflexivity.
Qed.

Lemma tree_delete_eq (v_tree : value) (w : world TS) :
  caml_ts_tree_delete v_tree w =
  if is_NULL (custom_data w v_tree) then (Returns Val_unit, w)
  else
    (Returns Val_unit,
     snd (store_custom v_tree NULL
            (after_call w (ts_tree_delete (custom_data w v_tree) (ts_mem w))
               [ {| fmt := "[C DEBUG] Manually deleting tree %p\n";
                    args := [word.unsigned (custom_data w v_tree)] |} ]))).
Proof.
  unfold caml_ts_tree_delete. run_stub.
  destruct (is_NULL (custom_data w v_tree)); reflexivity.
Qed.

Lemma tree_root_node_eq (v_tree : value) (w : world TS) :
  caml_ts_tree_root_node v_tree w =
  if is_NULL (custom_data w v_tree) then
    (Raises "Failure" "tree_root_node: NULL tree",
     after_call w (ts_mem w)
       [ {| fmt := "[C DEBUG] ERROR: tree_root_node called on NULL tree!\n";
            args := [] |} ])
  else (Returns (alloc_node (ts_tree_root_node (custom_data w v_tree) (ts_mem w))), w).
Proof.
  unfold caml_ts_tree_root_node. run_stub.
  destruct (is_NULL (custom_data w v_tree)); reflexivity.
Qed.

Lemma released_handle_is_null (v_tree : value) (w : world TS) :
  custom_data (snd (caml_ts_tree_delete v_tree w)) v_tree = NULL.
Proof.
  rewrite tree_delete_eq.
  destruct (is_NULL (custom_data w v_tree)) eqn:Hnull; cbn [snd].
  - apply is_NULL_spec. exact Hnull.
  - apply custom_data_store with (w := w); [reflexivity|].
    intros H. apply is_NULL_spec in H. congruence.
Qed.

(** C3, as the stubs have it.  [caml_ts_tree_delete] returns unit and leaves
    the null pointer in the handle.  On such a released handle
    [caml_ts_tree_root_node] checks the pointer and raises
    [Failure "tree_root_node: NULL tree"], a second [caml_ts_tree_delete]
    checks it and changes nothing, and only [caml_ts_tree_copy] hands the
    null pointer to the library unchecked. *)
Theorem released_tree_is_checked (v_tree : value) (w : world TS) :
  let w1 := snd (caml_ts_tree_delete v_tree w) in
  fst (caml_ts_tree_delete v_tree w) = Returns Val_unit /\
  custom_data w1 v_tree = NULL /\
  fst (caml_ts_tree_root_node v_tree w1) =
    Raises "Failure" "tree_root_node: NULL tree" /\
  caml_ts_tree_delete v_tree w1 = (Returns Val_unit, w1) /\
  caml_ts_tree_copy v_tree w1 = (c <- call (ts_tree_copy NULL) ;; alloc_tree c) w1.
Proof.
  intros w1. pose proof (released_handle_is_null v_tree w) as Hnull.
  fold w1 in Hnull. split; [|split; [exact Hnull|split; [|split]]].
  - rewrite tree_delete_eq. destruct (is_NULL _); reflexivity.
  - rewrite tree_root_node_eq, Hnull. reflexivity.
  - rewrite tree_delete_eq, Hnull. reflexivity.
  - unfold caml_ts_tree_copy. run_stub. rewrite Hnull. reflexivity.
Qed.

(** Whatever the library answers, [caml_ts_parser_set_language] returns
    unit: the failure of [ts_parser_set_language] reaches stderr only. *)
Lemma set_language_returns_unit (v_parser v_language : value) (w : world TS) :
  fst (caml_ts_parser_set_language v_parser v_language w) = Returns Val_unit.
Proof.
  unfold caml_ts_parser_set_language. run_stub.
  destruct (ts_parser_set_language _ _ _) as [[] m]; reflexivity.
Qed.

End Release.

(** C3 fails as stated: after a tree is deleted, asking for its root is
    detected and reported as an exception. *)
Lemma root_node_after_delete_raises :
  let parsed := caml_ts_parser_parse_string (Custom 0) (CamlString ["x"%byte]) Flat.ready in
  let w2 := snd (caml_ts_tree_delete (Custom 2) (snd parsed)) in
  fst parsed = Returns (Val_some (Custom 2)) /\
  fst (caml_ts_tree_root_node (Custom 2) (snd parsed)) =
    Returns (alloc_node (Flat.root_node (word.of_Z 8589934592) (ts_mem (snd parsed)))) /\
  fst (caml_ts_tree_root_node (Custom 2) w2) =
    Raises "Failure" "tree_root_node: NULL tree".
Proof. vm_compute. repeat split; reflexivity. Qed.

(** C2 on a grammar generated for ABI 15 and a library that accepts
    versions 13 to 14: setting the language returns unit exactly as it does
    when the versions agree, the mismatch is only written to stderr, and
    the parse that follows is attempted and returns [None]. *)
Lemma set_language_abi_mismatch_is_silent :
  let mismatch := Flat.setup (Flat.boot 15) in
  fst mismatch = Returns Val_unit /\
  fst mismatch = fst (Flat.setup (Flat.boot Flat.LANGUAGE_VERSION)) /\
  last (stderr (snd mismatch)) =
    Some {| fmt := "[C DEBUG] ERROR: Failed to set language! ABI version mismatch?\n";
            args := [] |} /\
  fst (caml_ts_parser_parse_string (Custom 0) (CamlString ["x"%byte]) (snd mismatch)) =
    Returns Val_none.
Proof. vm_compute. repeat split; reflexivity. Qed.

(** ** Root span *)

Section RootSpan.
Context {TS : TreeSitter}.

Lemma node_start_byte_eq (v_node : value) (w : world TS) :
  caml_ts_node_start_byte v_node w =
  (Returns (Val_int (word.unsigned (ts_node_start_byte (node_val v_node) (ts_mem w)))), w).
Proof. reflexivity. Qed.

Lemma node_end_byte_eq (v_node : value) (w : world TS) :
  caml_ts_node_end_byte v_node w =
  (Returns (Val_int (word.unsigned (ts_node_end_byte (node_val v_node) (ts_mem w)))), w).
Proof. reflexivity. Qed.

(** The byte span a stub reports for a node it was handed by another stub
    is the library's span of that node. *)
Lemma node_span_forwarded (node : TSNode) (w : world TS) :
  caml_ts_node_start_byte (alloc_node node) w =
    (Returns (Val_int (word.unsigned (ts_node_start_byte node (ts_mem w)))), w) /\
  caml_ts_node_end_byte (alloc_node node) w =
    (Returns (Val_int (word.unsigned (ts_node_end_byte node (ts_mem w)))), w).
Proof.
  rewrite node_start_byte_eq, node_end_byte_eq, node_val_alloc_node.
  split; reflexivity.
Qed.

Lemma uint32_of_small (z : Z) : 0 <= z < 2 ^ 32 -> word.unsigned (uint32_of z) = z.
Proof.
  intros Hz. unfold uint32_of. rewrite word.unsigned_of_Z. unfold word.wrap.
  rewrite Z.mod_mod by lia. apply Z.mod_small. exact Hz.
Qed.


End RootSpan.




(** ** Node text *)

Section NodeText.
Context {TS : TreeSitter}.

(** C9.  When the node's byte span lies inside the source,
    [start <= end <= len (s)], [caml_ts_node_text] returns a string of
    [end - start] bytes whose byte [i] is byte [start + i] of the source;
    the copy stays inside the buffer. *)
Theorem node_text_is_source_slice (v_node v_source : value) (w : world TS) :
  let start := word.unsigned (ts_node_start_byte (node_val v_node) (ts_mem w)) in
  let end_ := word.unsigned (ts_node_end_byte (node_val v_node) (ts_mem w)) in
  start <= end_ <= caml_string_length v_source ->
  exists text,
    caml_ts_node_text v_node v_source w = (Returns (CamlString text), w) /\
    Z.of_nat (length text) = end_ - start /\
    forall i : nat, (i < length text)%nat ->
      text !! i = String_val v_source !! (Z.to_nat start + i)%nat.
Proof.
  intros start end_ Hspan.
  pose proof (word.unsigned_range (ts_node_start_byte (node_val v_node) (ts_mem w)))
    as Hs.
  pose proof (word.unsigned_range (ts_node_end_byte (node_val v_node) (ts_mem w)))
    as He.
  fold start in Hs. fold end_ in He.
  unfold caml_ts_node_text. run_stub.
  rewrite word.unsigned_sub. unfold word.wrap. fold start end_.
  rewrite (Z.mod_small (end_ - start)) by lia.
  unfold memcpy_from, caml_string_length in *.
  destruct (start + (end_ - start) <=? Z.of_nat (length (String_val v_source)))
    eqn:Hin; [|apply Z.leb_gt in Hin; lia].
  eexists. split; [reflexivity|]. split.
  - rewrite length_take, length_drop. lia.
  - intros i Hi. rewrite length_take in Hi.
    rewrite lookup_take_lt by lia. apply lookup_drop.
Qed.

End NodeText.

Lemma node_text_is_source_slice_witness :
  exists text,
    caml_ts_node_text (alloc_node (Flat.token_node Flat.first_tree 1))
      (CamlString Flat.xyx) (Flat.parsed Flat.xyx) =
      (Returns (CamlString text), Flat.parsed Flat.xyx) /\
    Z.of_nat (length text) = 2 - 1 /\
    forall i : nat, (i < length text)%nat ->
      text !! i = Flat.xyx !! (Z.to_nat 1 + i)%nat.
Proof.
  apply (node_text_is_source_slice (alloc_node (Flat.token_node Flat.first_tree 1))
           (CamlString Flat.xyx) (Flat.parsed Flat.xyx)).
  vm_compute. split; discriminate.
Defined.

(** ** The ERROR test *)

Lemma char_code_inj (c d : ascii) : char_code c = char_code d -> c = d.
Proof.
  unfold char_code. intros H. apply N2Z.inj in H.
  rewrite <- (ascii_N_embedding c), <- (ascii_N_embedding d). congruence.
Qed.

Lemma strcmp_refl (s : string) : strcmp s s = 0.
Proof.
  induction s as [|c r IH]; cbn [strcmp]; [reflexivity|].
  rewrite Z.eqb_refl. destruct (char_code c =? 0); [reflexivity | exact IH].
Qed.

Lemma strcmp_zero_eq (s1 : string) :
  forall s2, nul_free s1 = true -> nul_free s2 = true ->
             strcmp s1 s2 = 0 -> s1 = s2.
Proof.
  induction s1 as [|c1 r1 IH]; intros [|c2 r2] H1 H2 Hcmp;
    cbn [strcmp nul_free] in *.
  - reflexivity.
  - apply andb_prop in H2 as [H2 _]. apply negb_true_iff, Z.eqb_neq in H2. lia.
  - apply andb_prop in H1 as [H1 _]. apply negb_true_iff, Z.eqb_neq in H1. lia.
  - apply andb_prop in H1 as [Hc1 H1]. apply andb_prop in H2 as [_ H2].
    apply negb_true_iff in Hc1.
    destruct (char_code c1 =? char_code c2) eqn:Heq.
    + apply Z.eqb_eq, char_code_inj in Heq. subst c2.
      rewrite Hc1 in Hcmp. f_equal. apply IH; assumption.
    + apply Z.eqb_neq in Heq. lia.
Qed.

Lemma strcmp_zero_iff (s1 s2 : string) :
  nul_free s1 = true -> nul_free s2 = true -> (strcmp s1 s2 = 0 <-> s1 = s2).
Proof.
  intros H1 H2. split.
  - apply strcmp_zero_eq; assumption.
  - intros ->. apply strcmp_refl.
Qed.

Section IsError.
Context {TS : TreeSitter}.

(** C10.  For a node whose type string is [type], [caml_ts_node_is_error]
    returns a boolean that is true if and only if [type] is exactly
    "ERROR"; nothing else about the node, its missing or has-error flag
    included, enters the answer. *)
Theorem node_is_error_iff_type_ERROR (v_node : value) (w : world TS) (type : string) :
  ts_node_type (node_val v_node) (ts_mem w) = Some type ->
  nul_free type = true ->
  exists b,
    caml_ts_node_is_error v_node w = (Returns (Val_bool b), w) /\
    (b = true <-> type = "ERROR"%string).
Proof.
  intros Htype Hnul. exists (strcmp type "ERROR" =? 0). split.
  - unfold caml_ts_node_is_error. run_stub. rewrite Htype. reflexivity.
  - rewrite Z.eqb_eq. apply strcmp_zero_iff; [exact Hnul | reflexivity].
Qed.

End IsError.

Lemma node_is_error_iff_type_ERROR_witness :
  exists b,
    caml_ts_node_is_error (alloc_node (Flat.token_node Flat.first_tree 1))
      (Flat.parsed Flat.xyx) = (Returns (Val_bool b), Flat.parsed Flat.xyx) /\
    (b = true <-> "ERROR"%string = "ERROR"%string).
Proof.
  apply (node_is_error_iff_type_ERROR
           (alloc_node (Flat.token_node Flat.first_tree 1)) (Flat.parsed Flat.xyx)
           "ERROR").
  - vm_compute. reflexivity.
  - vm_compute. reflexivity.
Defined.

(** C5 fails as stated: the root of the tree for "xyx" has three children,
    yet asking for child 2^32 + 1 returns [Some], the child at index 1. *)
Lemma child_index_wraps :
  let w := Flat.parsed Flat.xyx in
  let root := alloc_node (Flat.root_node Flat.first_tree (ts_mem w)) in
  fst (caml_ts_tree_root_node (Custom 2) w) = Returns root /\
  fst (caml_ts_node_child_count root w) = Returns (Val_int 3) /\
  fst (caml_ts_node_child root (Val_int 4294967297) w) =
    Returns (Val_some (alloc_node (Flat.token_node Flat.first_tree 1))) /\
  fst (caml_ts_node_child root (Val_int 3) w) = Returns Val_none.
Proof. vm_compute. repeat split; reflexivity. Qed.

(** ** Properties that compose along [bind] *)

Section Composition.
Context {TS : TreeSitter}.

Lemma snd_bind {A B} (m : stub TS A) (k : A -> stub TS B) (w : world TS) :
  snd (bind m k w) =
  match m w with
  | (Returns a, w') => snd (k a w')
  | (_, w') => w'
  end.
Proof. unfold bind. destruct (m w) as [[a|e x|u] w']; reflexivity. Qed.

(** *** Preserving the custom heap and stderr *)

Lemma preserves_refl (w : world TS) : preserves w w.
Proof.
  split.
  - intros a b Hb. exists b. auto.
  - exists []. symmetry. apply app_nil_r.
Qed.

Lemma preserves_trans (w1 w2 w3 : world TS) :
  preserves w1 w2 -> preserves w2 w3 -> preserves w1 w3.
Proof.
  intros [H12 [l12 E12]] [H23 [l23 E23]]. split.
  - intros a b Hb. destruct (H12 a b Hb) as (b2 & Hb2 & Hid2 & Hd2).
    destruct (H23 a b2 Hb2) as (b3 & Hb3 & Hid3 & Hd3).
    exists b3. split; [exact Hb3|]. split; [congruence|].
    destruct Hd3 as [Hd3|Hd3]; [|right; exact Hd3].
    destruct Hd2 as [Hd2|Hd2]; [left | right]; congruence.
  - exists (l12 ++ l23). rewrite E23, E12. symmetry. apply app_assoc.
Qed.

Lemma preserves_same (w w' : world TS) :
  custom_heap w' = custom_heap w -> stderr w' = stderr w -> preserves w w'.
Proof.
  intros Hh He. split.
  - intros a b Hb. exists b. rewrite Hh. auto.
  - exists []. rewrite He. symmetry. apply app_nil_r.
Qed.

Lemma monotone_bind {A B} (m : stub TS A) (k : A -> stub TS B) :
  monotone m -> (forall a, monotone (k a)) -> monotone (bind m k).
Proof.
  intros Hm Hk w. rewrite snd_bind. specialize (Hm w).
  destruct (m w) as [[a|e x|u] w']; cbn [snd] in Hm; try exact Hm.
  eapply preserves_trans; [exact Hm | apply Hk].
Qed.

Lemma monotone_ret {A} (a : A) : monotone (TS := TS) (ret a).
Proof. intros w. apply preserves_refl. Qed.

Lemma monotone_query {A} (f : lib -> A) : monotone (query f).
Proof. intros w. apply preserves_refl. Qed.

Lemma monotone_failwith {A} msg : monotone (TS := TS) (A := A) (caml_failwith msg).
Proof. intros w. apply preserves_refl. Qed.

Lemma monotone_undefined {A} msg : monotone (TS := TS) (A := A) (undefined msg).
Proof. intros w. apply preserves_refl. Qed.

Lemma monotone_load v : monotone (TS := TS) (load_custom v).
Proof. intros w. apply preserves_refl. Qed.

Lemma monotone_call {A} (f : lib -> A * lib) : monotone (call f).
Proof.
  intros w. unfold call. destruct (f (ts_mem w)). apply preserves_same; reflexivity.
Qed.

Lemma monotone_fprintf f a : monotone (TS := TS) (fprintf_stderr f a).
Proof.
  intros w. split.
  - intros x b Hb. exists b. auto.
  - eexists. reflexivity.
Qed.

Lemma monotone_clear v : monotone (TS := TS) (store_custom v NULL).
Proof.
  intros w. split; [|exists []; symmetry; apply app_nil_r].
  intros a b Hb. unfold store_custom. cbn [snd custom_heap].
  destruct (custom_heap w !! custom_addr v) as [c|] eqn:Hc; [|exists b; auto].
  destruct (decide (custom_addr v = a)) as [Heq|Hne].
  - subst a. rewrite list_lookup_insert_eq by (eapply lookup_lt_Some; exact Hc).
    eexists. split; [reflexivity|]. cbn. split; [congruence | right; reflexivity].
  - rewrite list_lookup_insert_ne by exact Hne. exists b. auto.
Qed.

Lemma preserves_with_block (w : world TS) ops p : preserves w (with_block w ops p).
Proof.
  split; [|exists []; symmetry; apply app_nil_r].
  intros a b Hb. exists b. split; [|auto].
  unfold with_block. cbn [custom_heap]. apply lookup_app_l_Some. exact Hb.
Qed.

Lemma monotone_alloc_store ops p :
  monotone (TS := TS) (v <- caml_alloc_custom ops ;; store_custom v p ;;; ret v).
Proof. intros w. rewrite alloc_store. apply preserves_with_block. Qed.

(** *** Keeping one block as it is *)

Lemma keeps_bind {A B} (a : nat) (m : stub TS A) (k : A -> stub TS B) :
  keeps a m -> (forall x, keeps a (k x)) -> keeps a (bind m k).
Proof.
  intros Hm Hk w b Hb. rewrite snd_bind. specialize (Hm w b Hb).
  destruct (m w) as [[x|e x|u] w']; cbn [snd] in Hm; try exact Hm.
  apply Hk. exact Hm.
Qed.

Lemma keeps_same {A} (a : nat) (m : stub TS A) :
  (forall w, custom_heap (snd (m w)) = custom_heap w) -> keeps a m.
Proof. intros H w b Hb. rewrite H. exact Hb. Qed.

Lemma keeps_call {A} a (f : lib -> A * lib) : keeps a (call f).
Proof. apply keeps_same. intros w. unfold call. destruct (f (ts_mem w)). reflexivity. Qed.

Lemma keeps_store_other a v p : custom_addr v <> a -> keeps (TS := TS) a (store_custom v p).
Proof.
  intros Hne w b Hb. unfold store_custom. cbn [snd custom_heap].
  destruct (custom_heap w !! custom_addr v); [|exact Hb].
  rewrite list_lookup_insert_ne by exact Hne. exact Hb.
Qed.

Lemma keeps_alloc_store a ops p :
  keeps (TS := TS) a (v <- caml_alloc_custom ops ;; store_custom v p ;;; ret v).
Proof.
  intros w b Hb. rewrite alloc_store. unfold with_block. cbn [snd custom_heap].
  apply lookup_app_l_Some. exact Hb.
Qed.

End Composition.

(** ** What every stub keeps *)

Ltac unfold_stubs :=
  cbv [perform navigate
       caml_ts_parser_new caml_ts_parser_delete caml_ts_parser_set_language
       caml_ts_language_jasmin caml_ts_parser_parse_string
       caml_ts_parser_parse_string_with_tree caml_ts_tree_root_node
       caml_ts_tree_delete caml_ts_tree_copy caml_ts_node_type
       caml_ts_node_symbol caml_ts_node_is_named caml_ts_node_has_error
       caml_ts_node_is_missing caml_ts_node_range caml_ts_node_start_point
       caml_ts_node_end_point caml_ts_node_start_byte caml_ts_node_end_byte
       caml_ts_node_child_count caml_ts_node_named_child_count
       caml_ts_node_child caml_ts_node_named_child
       caml_ts_node_child_by_field_name caml_ts_node_parent
       caml_ts_node_next_sibling caml_ts_node_prev_sibling
       caml_ts_node_next_named_sibling caml_ts_node_prev_named_sibling
       caml_ts_node_text caml_ts_node_descendant_for_point_range
       caml_ts_node_named_descendant_for_point_range caml_ts_node_is_error
       alloc_parser alloc_tree alloc_language alloc_range call_
       Parser_val Tree_val Language_val fflush_stderr tree_finalize].

Ltac monotone_steps :=
  repeat first
    [ apply monotone_alloc_store
    | apply monotone_bind; [|intros ?]
    | apply monotone_ret | apply monotone_query | apply monotone_call
    | apply monotone_fprintf | apply monotone_clear | apply monotone_load
    | apply monotone_failwith | apply monotone_undefined
    | match goal with
      | |- monotone (if ?b then _ else _) => destruct b
      | |- monotone (match ?x with _ => _ end) => destruct x
      end ].

Ltac keeps_steps :=
  repeat first
    [ apply keeps_alloc_store
    | apply keeps_bind; [|intros ?]
    | apply keeps_call
    | apply keeps_store_other; congruence
    | apply keeps_same; intros ?; reflexivity
    | match goal with
      | |- keeps _ (if ?b then _ else _) => destruct b
      | |- keeps _ (match ?x with _ => _ end) => destruct x
      end ].

Section Invariants.
Context {TS : TreeSitter}.

Lemma perform_monotone (r : request) : monotone (perform r).
Proof.
  destruct r as [ | | | | | | | | | | | | | | | | | | | | | op ? | | ];
    try destruct op; unfold_stubs; monotone_steps.
Qed.

(** Every stub keeps the custom heap and stderr: each block that existed is
    still at its address with the same identifier, its pointer unchanged or
    cleared to the null pointer, and stderr is only appended to. *)
Theorem stubs_preserve_blocks_and_stderr (r : request) (w : world TS) :
  preserves w (snd (perform r w)).
Proof. apply perform_monotone. Qed.

Lemma perform_keeps (r : request) (a : nat) :
  released r <> Some a -> keeps a (perform r).
Proof.
  intros Hrel.
  destruct r as [ | | | | | | | | | | | | | | | | | | | | | op ? | | ];
    try destruct op; cbn [released] in Hrel; unfold_stubs; keeps_steps.
Qed.

(** A custom block changes only when it is the one handed to
    [caml_ts_parser_delete] or [caml_ts_tree_delete]: every other stub call
    leaves it exactly as it was. *)
Theorem block_changes_only_by_its_delete
    (r : request) (w : world TS) (a : nat) (b : custom_block) :
  custom_heap w !! a = Some b ->
  released r <> Some a ->
  custom_heap (snd (perform r w)) !! a = Some b.
Proof. intros Hb Hrel. exact (perform_keeps r a Hrel w b Hb). Qed.

End Invariants.

Lemma block_changes_only_by_its_delete_witness :
  custom_heap (snd (perform (Parser_parse_string (Custom 0) (CamlString Flat.xyx))
                      Flat.ready)) !! 0%nat =
  Some {| identifier := "tree_sitter_parser"; data := word.of_Z 65536 |}.
Proof.
  apply (block_changes_only_by_its_delete
           (Parser_parse_string (Custom 0) (CamlString Flat.xyx)) Flat.ready 0%nat).
  - vm_compute. reflexivity.
  - discriminate.
Defined.

(** ** Marshalling *)

(** A node survives the trip to OCaml and back: decoding the block
    [alloc_node] builds gives the node again, so two nodes with the same
    block are the same node, and the block is never an immediate value. *)
Theorem node_marshalling_round_trip (n1 n2 : TSNode) :
  node_val (alloc_node n1) = n1 /\
  (alloc_node n1 = alloc_node n2 -> n1 = n2) /\
  Is_block (alloc_node n1) = true.
Proof.
  split; [apply node_val_alloc_node|]. split; [|reflexivity].
  intros Heq. rewrite <- (node_val_alloc_node n1), <- (node_val_alloc_node n2).
  f_equal. exact Heq.
Qed.

Lemma uint32_of_unsigned (x : uint32_t) : uint32_of (word.unsigned x) = x.
Proof. unfold uint32_of. rewrite of_Z_mod32. apply word.of_Z_unsigned. Qed.

Lemma uint32_of_add_multiple (z k : Z) : uint32_of (z + k * 2 ^ 32) = uint32_of z.
Proof. unfold uint32_of. rewrite Z.mod_add by lia. reflexivity. Qed.

(** A point survives the trip to OCaml and back, and on the way in each
    coordinate counts modulo 2^32 only. *)
Theorem point_marshalling_round_trip (p : TSPoint) (r c k j : Z) :
  point_val (alloc_point p) = p /\
  point_val (Block 0 [Val_int (r + k * 2 ^ 32); Val_int (c + j * 2 ^ 32)]) =
  point_val (Block 0 [Val_int r; Val_int c]).
Proof.
  rewrite !point_val_point_of. unfold point_of, alloc_point.
  cbn [Field nth Long_val Val_int Val_long]. split.
  - rewrite !uint32_of_unsigned. destruct p. reflexivity.
  - rewrite !uint32_of_add_multiple. reflexivity.
Qed.

Section Accessors.
Context {TS : TreeSitter}.

(** The byte offsets and child counts a node reports are OCaml integers
    between 0 and 2^32 - 1, and reporting them leaves the world unchanged. *)
Theorem offsets_and_counts_in_range (v_node : value) (w : world TS) :
  let in_range (f : value -> stub TS value) :=
    exists z, f v_node w = (Returns (Val_int z), w) /\ 0 <= z < 2 ^ 32 in
  in_range caml_ts_node_start_byte /\
  in_range caml_ts_node_end_byte /\
  in_range caml_ts_node_child_count /\
  in_range caml_ts_node_named_child_count.
Proof.
  cbv zeta.
  repeat split; eexists; (split; [reflexivity | apply word.unsigned_range]).
Qed.

(** [caml_ts_node_range] agrees with the four single accessors: its fields
    are, in order, what the start point, end point, start byte and end byte
    stubs return for the same node. *)
Theorem node_range_agrees_with_accessors (v_node : value) (w : world TS) :
  exists sp ep sb eb,
    caml_ts_node_range v_node w = (Returns (Block 0 [sp; ep; sb; eb]), w) /\
    caml_ts_node_start_point v_node w = (Returns sp, w) /\
    caml_ts_node_end_point v_node w = (Returns ep, w) /\
    caml_ts_node_start_byte v_node w = (Returns sb, w) /\
    caml_ts_node_end_byte v_node w = (Returns eb, w).
Proof. do 4 eexists. repeat split; reflexivity. Qed.

(** [caml_ts_node_has_error] answers false for the null node without asking
    the library, and the library's answer otherwise; either way it changes
    nothing but stderr, where it writes three lines for the null node and
    four for any other. *)
Theorem has_error_answers_and_logs (v_node : value) (w : world TS) :
  let node := node_val v_node in
  exists lines,
    caml_ts_node_has_error v_node w =
      (Returns (Val_bool (if ts_node_is_null node then false
                          else ts_node_has_error node (ts_mem w))),
       after_call w (ts_mem w) lines) /\
    length lines = (if ts_node_is_null node then 3 else 4)%nat.
Proof.
  intros node. unfold caml_ts_node_has_error. run_stub. fold node.
  destruct (ts_node_is_null node); run_stub; unfold after_call;
    rewrite <- ?app_assoc; cbn [app]; eexists; split; reflexivity.
Qed.

End Accessors.

(** ** Node type and the ERROR test, side by side *)

Section NodeType.
Context {TS : TreeSitter}.

Lemma caml_copy_string_inj (s1 s2 : string) :
  caml_copy_string s1 = caml_copy_string s2 -> s1 = s2.
Proof.
  unfold caml_copy_string. intros H. injection H as H.
  rewrite <- (string_of_list_byte_of_string s1), <- (string_of_list_byte_of_string s2).
  f_equal. exact H.
Qed.

(** On a node that is not null, [caml_ts_node_type] and
    [caml_ts_node_is_error] read the same library string.  When the
    library has a type string, the first returns it and the second returns
    whether it is "ERROR", both leaving the world unchanged; when the
    library has none, the first falls back to "unknown" and the second
    compares against a null pointer. *)
Theorem node_type_and_is_error_agree (v_node : value) (w : world TS) :
  ts_node_is_null (node_val v_node) = false ->
  match ts_node_type (node_val v_node) (ts_mem w) with
  | Some type =>
      caml_ts_node_type v_node w = (Returns (caml_copy_string type), w) /\
      exists b,
        caml_ts_node_is_error v_node w = (Returns (Val_bool b), w) /\
        (nul_free type = true ->
         (b = true <-> caml_copy_string type = caml_copy_string "ERROR"))
  | None =>
      fst (caml_ts_node_type v_node w) = Returns (caml_copy_string "unknown") /\
      fst (caml_ts_node_is_error v_node w) = Undefined "strcmp: null pointer"
  end.
Proof.
  intros Hnode. unfold caml_ts_node_type, caml_ts_node_is_error.
  rewrite Hnode. run_stub.
  destruct (ts_node_type (node_val v_node) (ts_mem w)) as [type|].
  - split; [reflexivity|]. eexists. split; [reflexivity|].
    intros Hnul. rewrite Z.eqb_eq, strcmp_zero_iff by (exact Hnul || reflexivity).
    split; [intros ->; reflexivity | apply caml_copy_string_inj].
  - split; reflexivity.
Qed.

(** With an inverted span, [end < start], the 32-bit length wraps to
    [2^32 - (start - end)]; for a source shorter than 2^32 bytes the copy
    then leaves the buffer. *)
Theorem node_text_of_inverted_span (v_node v_source : value) (w : world TS) :
  let start := word.unsigned (ts_node_start_byte (node_val v_node) (ts_mem w)) in
  let end_ := word.unsigned (ts_node_end_byte (node_val v_node) (ts_mem w)) in
  end_ < start ->
  caml_string_length v_source < 2 ^ 32 ->
  word.unsigned (word.sub (ts_node_end_byte (node_val v_node) (ts_mem w))
                   (ts_node_start_byte (node_val v_node) (ts_mem w))) =
    2 ^ 32 - (start - end_) /\
  caml_ts_node_text v_node v_source w =
    (Undefined "memcpy: source range outside the buffer", w).
Proof.
  intros start end_ Hinv Hlen.
  pose proof (word.unsigned_range (ts_node_start_byte (node_val v_node) (ts_mem w)))
    as Hs.
  pose proof (word.unsigned_range (ts_node_end_byte (node_val v_node) (ts_mem w)))
    as He.
  fold start in Hs. fold end_ in He.
  assert (word.unsigned (word.sub (ts_node_end_byte (node_val v_node) (ts_mem w))
                           (ts_node_start_byte (node_val v_node) (ts_mem w))) =
          2 ^ 32 - (start - end_)) as Hwrap.
  { rewrite word.unsigned_sub. unfold word.wrap. fold start end_.
    replace (end_ - start) with (2 ^ 32 - (start - end_) + (-1) * 2 ^ 32) by lia.
    rewrite Z.mod_add by lia. apply Z.mod_small. lia. }
  split; [exact Hwrap|].
  unfold caml_ts_node_text. run_stub. rewrite Hwrap. fold start.
  unfold memcpy_from, caml_string_length in *.
  destruct (start + (2 ^ 32 - (start - end_)) <=?
            Z.of_nat (length (String_val v_source))) eqn:Hin;
    [apply Z.leb_le in Hin; lia | reflexivity].
Qed.

End NodeType.

Lemma node_type_and_is_error_agree_witness :
  caml_ts_node_type (alloc_node (Flat.token_node Flat.first_tree 1))
    (Flat.parsed Flat.xyx) =
    (Returns (caml_copy_string "ERROR"), Flat.parsed Flat.xyx) /\
  exists b,
    caml_ts_node_is_error (alloc_node (Flat.token_node Flat.first_tree 1))
      (Flat.parsed Flat.xyx) = (Returns (Val_bool b), Flat.parsed Flat.xyx) /\
    (nul_free "ERROR" = true ->
     (b = true <-> caml_copy_string "ERROR" = caml_copy_string "ERROR")).
Proof.
  apply (node_type_and_is_error_agree
           (alloc_node (Flat.token_node Flat.first_tree 1)) (Flat.parsed Flat.xyx)).
  vm_compute. reflexivity.
Defined.

Lemma node_text_of_inverted_span_witness :
  let forged :=
    alloc_node {| context0 := word.of_Z 5; context1 := word.of_Z 0;
                  context2 := word.of_Z 0; context3 := word.of_Z 0;
                  id := Flat.first_tree; tree := Flat.first_tree |} in
  let w := Flat.parsed Flat.xyx in
  word.unsigned (word.sub (ts_node_end_byte (node_val forged) (ts_mem w))
                   (ts_node_start_byte (node_val forged) (ts_mem w))) =
    2 ^ 32 - (word.unsigned (ts_node_start_byte (node_val forged) (ts_mem w))
              - word.unsigned (ts_node_end_byte (node_val forged) (ts_mem w))) /\
  caml_ts_node_text forged (CamlString Flat.xyx) w =
    (Undefined "memcpy: source range outside the buffer", w).
Proof.
  cbv zeta. apply node_text_of_inverted_span; vm_compute; reflexivity.
Defined.

(** ** Handles: delete, copy, finalise *)

Section Handles.
Context {TS : TreeSitter}.

Lemma custom_data_cleared (v : value) (w w' : world TS) :
  custom_heap w' = custom_heap w ->
  custom_data (snd (store_custom v NULL w')) v = NULL.
Proof.
  intros Hheap. unfold store_custom, custom_data. cbn [snd custom_heap].
  rewrite Hheap.
  destruct (custom_heap w !! custom_addr v) as [b|] eqn:Hb.
  - rewrite list_lookup_insert_eq by (eapply lookup_lt_Some; exact Hb). reflexivity.
  - rewrite Hb. reflexivity.
Qed.

Lemma parser_delete_eq (v_parser : value) (w : world TS) :
  caml_ts_parser_delete v_parser w =
  (Returns Val_unit,
   snd (store_custom v_parser NULL
          (after_call w (ts_parser_delete (custom_data w v_parser) (ts_mem w)) []))).
Proof.
  unfold caml_ts_parser_delete. run_stub. unfold after_call.
  rewrite app_nil_r. reflexivity.
Qed.

(** [caml_ts_parser_delete] has no guard.  It hands the stored pointer to
    [ts_parser_delete], clears the handle and returns unit; called again on
    the same handle it hands the library the null pointer, and a parse
    through the released handle asks the library to parse with a null
    parser. *)
Theorem parser_delete_is_unguarded (v_parser v_string : value) (w : world TS) :
  let w1 := snd (caml_ts_parser_delete v_parser w) in
  fst (caml_ts_parser_delete v_parser w) = Returns Val_unit /\
  ts_mem w1 = ts_parser_delete (custom_data w v_parser) (ts_mem w) /\
  custom_data w1 v_parser = NULL /\
  ts_mem (snd (caml_ts_parser_delete v_parser w1)) = ts_parser_delete NULL (ts_mem w1) /\
  tree_or_none (caml_ts_parser_parse_string v_parser v_string w1)
    (fst (ts_parser_parse_string NULL NULL (String_val v_string)
            (uint32_of (caml_string_length v_string)) (ts_mem w1))).
Proof.
  intros w1.
  assert (custom_data w1 v_parser = NULL) as Hnull.
  { subst w1. rewrite parser_delete_eq. cbn [snd].
    apply custom_data_cleared with (w := w). reflexivity. }
  split; [rewrite parser_delete_eq; reflexivity|].
  split; [subst w1; rewrite parser_delete_eq; reflexivity|].
  split; [exact Hnull|]. split.
  - rewrite parser_delete_eq, Hnull. reflexivity.
  - rewrite parse_string_eq, Hnull.
    destruct (ts_parser_parse_string _ _ _ _ _) as [t m]. cbn [fst].
    apply tree_or_none_intro. reflexivity.
Qed.

Lemma custom_data_kept (r : request) (v : value) (w : world TS) :
  released r <> Some (custom_addr v) ->
  (custom_addr v < length (custom_heap w))%nat ->
  custom_data (snd (perform r w)) v = custom_data w v.
Proof.
  intros Hrel Hlive. unfold custom_data.
  destruct (lookup_lt_is_Some_2 _ _ Hlive) as [b Hb].
  rewrite (perform_keeps r (custom_addr v) Hrel w b Hb), Hb. reflexivity.
Qed.

(** A copy is a handle of its own.  [caml_ts_tree_copy] returns a fresh
    custom block that stores the library's copy, the original handle still
    stores its own tree, and deleting the copy leaves the original handle
    untouched. *)
Theorem tree_copy_is_independent (v_tree : value) (w : world TS) :
  (custom_addr v_tree < length (custom_heap w))%nat ->
  let copied := caml_ts_tree_copy v_tree w in
  let v_copy := Custom (length (custom_heap w)) in
  fst copied = Returns v_copy /\
  custom_data (snd copied) v_copy =
    fst (ts_tree_copy (custom_data w v_tree) (ts_mem w)) /\
  custom_data (snd copied) v_tree = custom_data w v_tree /\
  custom_data (snd (caml_ts_tree_delete v_copy (snd copied))) v_tree =
    custom_data w v_tree.
Proof.
  intros Hlive copied v_copy.
  assert (copied =
          (Returns v_copy,
           with_block
             (after_call w (snd (ts_tree_copy (custom_data w v_tree) (ts_mem w))) [])
             "tree_sitter_tree"
             (fst (ts_tree_copy (custom_data w v_tree) (ts_mem w))))) as Hcopied.
  { subst copied v_copy. unfold caml_ts_tree_copy. run_stub.
    destruct (ts_tree_copy _ _) as [c m]. rewrite alloc_tree_eq.
    unfold after_call. rewrite app_nil_r. reflexivity. }
  rewrite Hcopied. cbn [fst snd].
  split; [reflexivity|]. split.
  { apply (custom_data_with_block_new (after_call w _ [])). }
  assert (custom_data
            (with_block
               (after_call w (snd (ts_tree_copy (custom_data w v_tree) (ts_mem w))) [])
               "tree_sitter_tree"
               (fst (ts_tree_copy (custom_data w v_tree) (ts_mem w)))) v_tree =
          custom_data w v_tree) as Hkept.
  { rewrite custom_data_with_block_old by exact Hlive. reflexivity. }
  split; [exact Hkept|].
  etransitivity; [|exact Hkept].
  apply (custom_data_kept (Tree_delete v_copy)).
  - subst v_copy. cbn [released custom_addr]. intros [= H]. lia.
  - unfold with_block, after_call. cbn [custom_heap]. rewrite length_app. lia.
Qed.

(** [caml_ts_parser_set_language] reports a failure on stderr and nowhere
    else.  It returns unit and leaves every custom block alone; it writes
    four lines when the library accepts the language and five when it
    refuses, the fifth being the one that names the error. *)
Theorem set_language_reports_on_stderr_only
    (v_parser v_language : value) (w : world TS) :
  let answer := ts_parser_set_language (custom_data w v_parser)
                  (custom_data w v_language) (ts_mem w) in
  exists lines,
    caml_ts_parser_set_language v_parser v_language w =
      (Returns Val_unit, after_call w (snd answer) lines) /\
    length lines = (if fst answer then 4 else 5)%nat /\
    (last lines =
       Some {| fmt := "[C DEBUG] ERROR: Failed to set language! ABI version mismatch?\n";
               args := [] |}
     <-> fst answer = false).
Proof.
  intros answer. subst answer. unfold caml_ts_parser_set_language. run_stub.
  destruct (ts_parser_set_language _ _ _) as [[] m]; cbn [fst snd negb];
    run_stub; unfold after_call; rewrite <- ?app_assoc; cbn [app];
    eexists; (split; [reflexivity|]); (split; [reflexivity|]);
    cbn; split; congruence.
Qed.

Lemma tree_finalize_eq (v : value) (w : world TS) :
  tree_finalize v w =
  if is_NULL (custom_data w v) then (Returns tt, w)
  else
    let w1 := snd (store_custom v NULL w) in
    (Returns tt, after_call w1 (ts_tree_delete (custom_data w v) (ts_mem w)) []).
Proof.
  unfold tree_finalize. run_stub.
  destruct (is_NULL (custom_data w v)); cbn [negb]; [reflexivity|].
  unfold store_custom, after_call. cbn [snd ts_mem custom_heap stderr].
  rewrite app_nil_r. reflexivity.
Qed.

(** No tree is deleted twice.  The finaliser hands a live tree to
    [ts_tree_delete] and clears the handle; after that, or after
    [caml_ts_tree_delete], running the finaliser changes nothing. *)
Theorem tree_is_deleted_once (v_tree : value) (w : world TS) :
  let finalised := snd (tree_finalize v_tree w) in
  let deleted := snd (caml_ts_tree_delete v_tree w) in
  (custom_data w v_tree <> NULL ->
   ts_mem finalised = ts_tree_delete (custom_data w v_tree) (ts_mem w)) /\
  custom_data finalised v_tree = NULL /\
  tree_finalize v_tree finalised = (Returns tt, finalised) /\
  tree_finalize v_tree deleted = (Returns tt, deleted) /\
  caml_ts_tree_delete v_tree finalised = (Returns Val_unit, finalised).
Proof.
  intros finalised deleted.
  assert (custom_data finalised v_tree = NULL) as Hfin.
  { subst finalised. rewrite tree_finalize_eq.
    destruct (is_NULL (custom_data w v_tree)) eqn:Hnull; cbn [snd].
    - apply is_NULL_spec. exact Hnull.
    - unfold after_call, custom_data. cbn [custom_heap].
      apply (custom_data_cleared v_tree w w). reflexivity. }
  pose proof (released_handle_is_null v_tree w) as Hdel. fold deleted in Hdel.
  split; [|split; [exact Hfin|split; [|split]]].
  - intros Hlive. subst finalised. rewrite tree_finalize_eq.
    destruct (is_NULL (custom_data w v_tree)) eqn:Hnull; [|reflexivity].
    apply is_NULL_spec in Hnull. contradiction.
  - rewrite tree_finalize_eq, Hfin. reflexivity.
  - rewrite tree_finalize_eq, Hdel. reflexivity.
  - rewrite tree_delete_eq, Hfin. reflexivity.
Qed.

(** A previous tree that is absent or already released makes no difference:
    when the old tree the library would receive is the null pointer,
    [caml_ts_parser_parse_string_with_tree] returns what
    [caml_ts_parser_parse_string] returns, with the same library memory and
    the same custom heap; only stderr differs. *)
Theorem parse_without_usable_previous_tree
    (v_parser v_old_tree v_string : value) (w : world TS) :
  old_tree_of w v_old_tree = NULL ->
  let plain := caml_ts_parser_parse_string v_parser v_string w in
  let incremental :=
    caml_ts_parser_parse_string_with_tree v_parser v_old_tree v_string w in
  fst incremental = fst plain /\
  ts_mem (snd incremental) = ts_mem (snd plain) /\
  custom_heap (snd incremental) = custom_heap (snd plain).
Proof.
  intros Hold. cbv zeta.
  rewrite parse_string_eq, parse_string_with_tree_eq. cbv zeta. rewrite Hold.
  destruct (ts_parser_parse_string _ _ _ _ _) as [t m].
  destruct (is_NULL t); repeat split; reflexivity.
Qed.

End Handles.

Lemma tree_copy_is_independent_witness :
  let w := Flat.parsed Flat.xyx in
  let copied := caml_ts_tree_copy (Custom 2) w in
  let v_copy := Custom (length (custom_heap w)) in
  fst copied = Returns v_copy /\
  custom_data (snd copied) v_copy =
    fst (ts_tree_copy (custom_data w (Custom 2)) (ts_mem w)) /\
  custom_data (snd copied) (Custom 2) = custom_data w (Custom 2) /\
  custom_data (snd (caml_ts_tree_delete v_copy (snd copied))) (Custom 2) =
    custom_data w (Custom 2).
Proof.
  cbv zeta. apply tree_copy_is_independent. vm_compute. apply le_n.
Defined.

Lemma parse_without_usable_previous_tree_witness :
  let plain := caml_ts_parser_parse_string (Custom 0) (CamlString Flat.xyx) Flat.ready in
  let incremental :=
    caml_ts_parser_parse_string_with_tree (Custom 0) Val_none (CamlString Flat.xyx)
      Flat.ready in
  fst incremental = fst plain /\
  ts_mem (snd incremental) = ts_mem (snd plain) /\
  custom_heap (snd incremental) = custom_heap (snd plain).
Proof.
  cbv zeta. apply parse_without_usable_previous_tree. reflexivity.
Defined.

(** ** The test program *)

Section TestProgramFacts.
Context {TS : TreeSitter}.

(** [main] exits with 0 or 1, and with 0 exactly when every check passes:
    a parser was created, the grammar was found, its ABI version equals the
    library's, the library accepted the language, and the test source
    parsed to a tree. *)
Theorem main_exit_status (m0 : lib) :
  let status := fst (fst (main m0)) in
  (status = 0 \/ status = 1) /\
  (status = 0 <-> main_checks_pass m0).
Proof.
  unfold main, main_checks_pass.
  change (Z.of_nat (String.length test_source)) with 45.
  destruct (ts_parser_new m0) as [parser m1].
  destruct (is_NULL parser) eqn:Hparser; cbn [fst].
  { apply is_NULL_spec in Hparser. split; [auto|]. split; [discriminate|tauto]. }
  apply is_NULL_false in Hparser.
  destruct (is_NULL (tree_sitter_jasmin m1)) eqn:Hlang; cbn [fst].
  { apply is_NULL_spec in Hlang. split; [auto|]. split; [discriminate|tauto]. }
  apply is_NULL_false in Hlang.
  destruct (word.eqb_spec (ts_language_abi_version (tree_sitter_jasmin m1) m1)
              TREE_SITTER_LANGUAGE_VERSION) as [Habi|Habi]; cbn [negb fst].
  2: { split; [auto|]. split; [discriminate|tauto]. }
  destruct (ts_parser_set_language parser (tree_sitter_jasmin m1) m1)
    as [success m2].
  destruct success; cbn [negb fst].
  2: { split; [auto|]. split; [discriminate|]. intros (_ & _ & _ & H & _).
       discriminate H. }
  destruct (ts_parser_parse_string parser NULL _ _ m2) as [t m3].
  destruct (is_NULL t) eqn:Htree; cbn [fst].
  { apply is_NULL_spec in Htree. split; [auto|]. split; [discriminate|tauto]. }
  apply is_NULL_false in Htree. split; [auto|]. split; [|reflexivity].
  intros _. repeat split; assumption.
Qed.

(** On an ABI mismatch [main] fails fast: it exits with 1 and the library's
    memory is as [ts_parser_new] left it, so neither
    [ts_parser_set_language] nor a parse was attempted (and the parser was
    not deleted). *)
Theorem main_stops_at_abi_mismatch (m0 : lib) :
  let parser := fst (ts_parser_new m0) in
  let m1 := snd (ts_parser_new m0) in
  parser <> NULL ->
  tree_sitter_jasmin m1 <> NULL ->
  ts_language_abi_version (tree_sitter_jasmin m1) m1 <> TREE_SITTER_LANGUAGE_VERSION ->
  fst (fst (main m0)) = 1 /\
  snd (main m0) = m1 /\
  last (snd (fst (main m0))) =
    Some (eprintf "  Library expects: %u\n"
            [Arg_int (word.unsigned TREE_SITTER_LANGUAGE_VERSION)]).
Proof.
  unfold main. destruct (ts_parser_new m0) as [parser m1]. cbn [fst snd].
  intros Hparser Hlang Habi.
  apply is_NULL_false in Hparser, Hlang. rewrite Hparser, Hlang.
  destruct (word.eqb_spec (ts_language_abi_version (tree_sitter_jasmin m1) m1)
              TREE_SITTER_LANGUAGE_VERSION) as [Heq|_]; [contradiction|].
  cbn [negb fst snd]. repeat split; reflexivity.
Qed.

End TestProgramFacts.

Lemma main_stops_at_abi_mismatch_witness :
  let m0 := ts_mem (Flat.boot 15) in
  fst (fst (main (TS := Flat.engine) m0)) = 1 /\
  snd (main (TS := Flat.engine) m0) = snd (Flat.parser_new m0) /\
  last (snd (fst (main (TS := Flat.engine) m0))) =
    Some (eprintf "  Library expects: %u\n" [Arg_int Flat.LANGUAGE_VERSION]).
Proof.
  cbv zeta. apply (main_stops_at_abi_mismatch (TS := Flat.engine));
    intros H; apply (f_equal word.unsigned) in H; vm_compute in H; discriminate H.
Defined.

(** ** Fresh handles *)

Section FreshHandles.
Context {TS : TreeSitter}.

(** A tree handle that a parse just returned is safe to ask for its root:
    it stores a pointer that is not null, [caml_ts_tree_root_node] does not
    raise on it, writes nothing, and returns the encoding of the library's
    root node. *)
Theorem parsed_tree_has_root (v_parser v_string h : value) (w w1 : world TS) :
  caml_ts_parser_parse_string v_parser v_string w = (Returns (Val_some h), w1) ->
  custom_data w1 h <> NULL /\
  caml_ts_tree_root_node h w1 =
    (Returns (alloc_node (ts_tree_root_node (custom_data w1 h) (ts_mem w1))), w1).
Proof.
  intros Hparse. rewrite parse_string_eq in Hparse.
  destruct (ts_parser_parse_string _ _ _ _ _) as [t m].
  destruct (is_NULL t) eqn:Hnull; [discriminate Hparse|].
  injection Hparse as <- <-.
  assert (custom_data (with_block (after_call w m []) "tree_sitter_tree" t)
            (Custom (length (custom_heap w))) = t) as Hdata
    by apply (custom_data_with_block_new (after_call w m [])).
  rewrite tree_root_node_eq, Hdata, Hnull. split; [|reflexivity].
  apply is_NULL_false. exact Hnull.
Qed.

End FreshHandles.

Lemma parsed_tree_has_root_witness :
  custom_data (Flat.parsed Flat.xyx) (Custom 2) <> NULL /\
  caml_ts_tree_root_node (Custom 2) (Flat.parsed Flat.xyx) =
    (Returns (alloc_node (ts_tree_root_node
                            (custom_data (Flat.parsed Flat.xyx) (Custom 2))
                            (ts_mem (Flat.parsed Flat.xyx)))),
     Flat.parsed Flat.xyx).
Proof.
  apply (parsed_tree_has_root (Custom 0) (CamlString Flat.xyx) (Custom 2) Flat.ready).
  apply run_eq. vm_compute. reflexivity.
Defined.

Section NewBlocks.
Context {TS : TreeSitter}.

Ltac open_run :=
  repeat match goal with
         | |- context [let (_, _) := ?x in _] => destruct x
         | |- context [if ?b then _ else _] => destruct b
         | |- context [match ?x with Some _ => _ | None => _ end] => destruct x
         end.

Lemma alloc_parser_eq (p : pointer) (w : world TS) :
  alloc_parser p w =
  (Returns (Custom (length (custom_heap w))), with_block w "tree_sitter_parser" p).
Proof. apply alloc_store. Qed.

Lemma alloc_language_eq (p : pointer) (w : world TS) :
  alloc_language p w =
  (Returns (Custom (length (custom_heap w))), with_block w "tree_sitter_language" p).
Proof. apply alloc_store. Qed.

(** A handle a stub returns is always a new custom block: its address is
    the first free one, and the custom heap has grown by exactly that
    block.  No stub ever returns a handle that aliases an existing one. *)
Theorem returned_handle_is_new (r : request) (w : world TS) (n : nat) :
  returned_handle (fst (perform r w)) = Some n ->
  n = length (custom_heap w) /\
  length (custom_heap (snd (perform r w))) = S n.
Proof.
  destruct r as [ | | | | | | | | | | | | | | | | | | | | | op ? | | ];
    cbn [perform];
    try (rewrite navigate_eq; unfold optional_node; open_run; discriminate);
    try (rewrite tree_root_node_eq; open_run; discriminate);
    try (rewrite tree_delete_eq; open_run; discriminate);
    try (rewrite parser_delete_eq; discriminate);
    try (rewrite (surjective_pairing (caml_ts_parser_set_language _ _ _)),
           set_language_returns_unit; discriminate).
  all: try (unfold_stubs; run_stub; open_run; discriminate).
  - (* parser_new *)
    unfold caml_ts_parser_new. run_stub.
    destruct (ts_parser_new _) as [p m]. rewrite alloc_parser_eq.
    cbn [fst snd returned_handle custom_heap].
    intros [= <-]. unfold with_block. cbn [custom_heap].
    rewrite length_app. cbn. split; [reflexivity | lia].
  - (* language_jasmin *)
    unfold caml_ts_language_jasmin. run_stub.
    rewrite alloc_language_eq. cbn [fst snd returned_handle custom_heap].
    intros [= <-]. unfold with_block. cbn [custom_heap].
    rewrite length_app. cbn. split; [reflexivity | lia].
  - (* parse_string *)
    rewrite parse_string_eq. destruct (ts_parser_parse_string _ _ _ _ _) as [t m].
    destruct (is_NULL t); [discriminate|]. cbn [fst snd returned_handle Val_some].
    intros [= <-]. unfold with_block. cbn [custom_heap].
    rewrite length_app. cbn. split; [reflexivity | lia].
  - (* parse_string_with_tree *)
    rewrite parse_string_with_tree_eq. cbv zeta.
    destruct (ts_parser_parse_string _ _ _ _ _) as [t m].
    destruct (is_NULL t); [discriminate|]. cbn [fst snd returned_handle Val_some].
    intros [= <-]. unfold with_block. cbn [custom_heap].
    rewrite length_app. cbn. split; [reflexivity | lia].
  - (* tree_copy *)
    unfold caml_ts_tree_copy. run_stub.
    destruct (ts_tree_copy _ _) as [c m]. rewrite alloc_tree_eq.
    cbn [fst snd returned_handle custom_heap].
    intros [= <-]. unfold with_block. cbn [custom_heap].
    rewrite length_app. cbn. split; [reflexivity | lia].
Qed.

End NewBlocks.

Lemma returned_handle_is_new_witness :
  2%nat = length (custom_heap Flat.ready) /\
  length (custom_heap
            (snd (perform (Parser_parse_string (Custom 0) (CamlString Flat.xyx))
                    Flat.ready))) = 3%nat.
Proof.
  apply (returned_handle_is_new
           (Parser_parse_string (Custom 0) (CamlString Flat.xyx)) Flat.ready 2).
  vm_compute. reflexivity.
Defined.
